(** * Stool walk simulator ([run.py]): the [Chair] class and its [move] loop.

    Numbers: the simulator computes with Python numbers (ints and floats).
    They are modelled as mathematical reals [R]: an [int] is its value, a
    [float] is the rational it stands for, and [+], [-], [*], [/] are the
    exact operations, which Python's are on the ints and the binary
    fractions of the program's own configuration.  The operations that can
    raise are modelled with the exception they raise:
    - [a / b] raises [ZeroDivisionError] when [b] is zero;
    - [math.asin] and [math.acos] raise [ValueError] outside [-1, 1];
    - [math.tan] and [math.atan] always return.
    Rounding, overflow and NaN are outside this model.  For that reason the
    statements about arbitrary inputs relate what the program computes in
    one place to what it computes in another: the angle of a half-step and
    the test made on it, the frame before and after an assignment, two runs
    of the same sequence of additions, the outcome of a run and of its first
    half-step.  Closed formulas (a product for a repeated addition, a
    quotient for a number of iterations) are spelt out where the claim has
    them and on the program's own configuration, whose timer is an [int]. *)

From Stdlib Require Import ZArith Reals Lra Lia List Ascii String.
Import ListNotations.
Open Scope R_scope.

(** ** Exceptions *)

Inductive exn : Type :=
| InvalidValueError                 (* run.py:8, centre of mass unstable *)
| InvalidValueAngle (value : R)     (* run.py:24, carries the angle *)
| ValueError                        (* math domain error of math.asin/acos *)
| ZeroDivisionError.                (* division by zero *)



Definition numeric_failure (e : exn) : Prop :=
  match e with ValueError | ZeroDivisionError => True | _ => False end.

(** ** Expressions that may raise: the error monad [exn + A] *)

Definition Exc (A : Type) : Type := (exn + A)%type.

Definition ebind {A B : Type} (e : Exc A) (k : A -> Exc B) : Exc B :=
  match e with
  | inl x => inl x
  | inr a => k a
  end.

Notation "'let?' x ':=' e 'in' k" := (ebind e (fun x => k))
  (at level 10, x name, e at level 100, k at level 200).

Definition py_div (a b : R) : Exc R :=
  if Req_dec_T b 0 then inl ZeroDivisionError else inr (a / b).

Definition in_unit_interval_dec (x : R) : {-1 <= x <= 1} + {~ (-1 <= x <= 1)}.
Proof.
  destruct (Rle_dec (-1) x) as [Hl | Hl]; [ | right; tauto ].
  destruct (Rle_dec x 1) as [Hu | Hu]; [ left; tauto | right; tauto ].
Defined.

Definition math_acos (x : R) : Exc R :=
  if in_unit_interval_dec x then inr (acos x) else inl ValueError.

Definition math_asin (x : R) : Exc R :=
  if in_unit_interval_dec x then inr (asin x) else inl ValueError.

(** [math.tan] returns on every finite argument.  The real tangent has no
    value where the cosine vanishes; the program reaches such an argument
    only as [math.acos(0.0)], the double next to [PI / 2], and there
    [math.tan] returns the double 16331239353195370. *)
Definition math_tan (x : R) : R :=
  if Req_dec_T (cos x) 0 then 16331239353195370 else tan x.

Definition math_atan (x : R) : R := atan x.

(** ** The [Chair] object *)

Record Chair : Type := mkChair {
  length_wood : R;
  length_leg : R;
  length_chair : R;
  wood_weight : R;
  wood_mu : R;
  alpha_max : R;
  time : R;
  pause : R;
  time_step : R;
  pos_1 : R;
  pos_2 : R;
  pos_chair_1 : R;
  pos_chair_2 : R
}.

(** [Chair.__init__] (run.py:101-115). *)
Definition Chair_init
    (length_wood length_leg length_chair wood_weight time pause time_step wood_mu : R)
    : Chair :=
  {| length_wood := length_wood;
     length_leg := length_leg;
     length_chair := length_chair;
     wood_weight := wood_weight;
     wood_mu := wood_mu;
     alpha_max := math_atan wood_mu;
     time := time;
     pause := pause;
     time_step := time_step;
     pos_1 := length_chair;
     pos_2 := 0;
     pos_chair_1 := length_chair;
     pos_chair_2 := 0 |}.

(** Attribute assignments. *)
Definition set_pos_1 (v : R) (c : Chair) : Chair :=
  mkChair (length_wood c) (length_leg c) (length_chair c) (wood_weight c)
          (wood_mu c) (alpha_max c) (time c) (pause c) (time_step c)
          v (pos_2 c) (pos_chair_1 c) (pos_chair_2 c).

Definition set_pos_2 (v : R) (c : Chair) : Chair :=
  mkChair (length_wood c) (length_leg c) (length_chair c) (wood_weight c)
          (wood_mu c) (alpha_max c) (time c) (pause c) (time_step c)
          (pos_1 c) v (pos_chair_1 c) (pos_chair_2 c).

Definition set_pos_chair_1 (v : R) (c : Chair) : Chair :=
  mkChair (length_wood c) (length_leg c) (length_chair c) (wood_weight c)
          (wood_mu c) (alpha_max c) (time c) (pause c) (time_step c)
          (pos_1 c) (pos_2 c) v (pos_chair_2 c).

Definition set_pos_chair_2 (v : R) (c : Chair) : Chair :=
  mkChair (length_wood c) (length_leg c) (length_chair c) (wood_weight c)
          (wood_mu c) (alpha_max c) (time c) (pause c) (time_step c)
          (pos_1 c) (pos_2 c) (pos_chair_1 c) v.

(** ** The running [move] call: the object and the two locals *)

Record Frame : Type := mkFrame {
  self : Chair;
  total_way : R;
  timer : R
}.

Definition set_self (c : Chair) (f : Frame) : Frame :=
  mkFrame c (total_way f) (timer f).

Definition set_total_way (v : R) (f : Frame) : Frame :=
  mkFrame (self f) v (timer f).

Definition set_timer (v : R) (f : Frame) : Frame :=
  mkFrame (self f) (total_way f) v.

(** Statements: state passing with exceptions.  The frame that comes back
    with an exception is the state at the [raise]. *)
Definition M (A : Type) : Type := Frame -> Frame * Exc A.

Definition ret {A : Type} (a : A) : M A := fun f => (f, inr a).

Definition raise {A : Type} (e : exn) : M A := fun f => (f, inl e).

Definition bind {A B : Type} (m : M A) (k : A -> M B) : M B :=
  fun f =>
    match m f with
    | (f', inl e) => (f', inl e)
    | (f', inr a) => k a f'
    end.

Definition eval {A : Type} (e : Frame -> Exc A) : M A := fun f => (f, e f).

Definition modify (g : Frame -> Frame) : M unit := fun f => (g f, inr tt).

Notation "x <- m ;; k" := (bind m (fun x => k))
  (at level 61, m at next level, right associativity).
Notation "m ;; k" := (bind m (fun _ => k))
  (at level 61, right associativity).

(** The tilt expression of run.py:143-144 and 151-152,
    [math.asin((length_leg - math.tan(math.acos(abs(d) / length_leg)) * way)
               / length_chair)],
    with [d] the seat-edge/leg offset, evaluated innermost first. *)
Definition tilt (length_leg length_chair d way : R) : Exc R :=
  let? x := py_div (Rabs d) length_leg in
  let? th := math_acos x in
  let? y := py_div (length_leg - math_tan th * way) length_chair in
  math_asin y.

(** [alpha_1] (run.py:143-144). *)
Definition alpha_1 (way_1 : R) (f : Frame) : Exc R :=
  tilt (length_leg (self f)) (length_chair (self f))
       (pos_chair_1 (self f) - pos_1 (self f)) way_1.

(** [alpha_2] (run.py:151-152). *)
Definition alpha_2 (way_2 : R) (f : Frame) : Exc R :=
  tilt (length_leg (self f)) (length_chair (self f))
       (pos_chair_2 (self f) - pos_2 (self f)) way_2.

(** [if alpha > self.alpha_max: raise InvalidValueAngle(alpha)]. *)
Definition check_angle (alpha : R) : M unit :=
  fun f =>
    if Rgt_dec alpha (alpha_max (self f))
    then raise (InvalidValueAngle alpha) f
    else ret tt f.

(** The seat midpoint of [_check_position]. *)
Definition seat_mid (c : Chair) : R :=
  pos_chair_1 c - (pos_chair_1 c - pos_chair_2 c) / 2.

(** [Chair._check_position] (run.py:117-126). *)
Definition _check_position : M unit :=
  fun f =>
    if Rgt_dec (seat_mid (self f)) (pos_1 (self f)) then raise InvalidValueError f
    else if Rlt_dec (seat_mid (self f)) (pos_2 (self f)) then raise InvalidValueError f
    else ret tt f.

Definition advance_timer : M unit :=
  modify (fun f => set_timer (timer f + (time_step (self f) + pause (self f))) f).

(** Front half-step (run.py:142-149). *)
Definition front_half (way_1 : R) : M unit :=
  modify (fun f => set_self (set_pos_1 (pos_1 (self f) + way_1) (self f)) f) ;;
  a1 <- eval (alpha_1 way_1) ;;
  check_angle a1 ;;
  modify (fun f => set_total_way (total_way f + way_1) f) ;;
  modify (fun f => set_self (set_pos_chair_1 (pos_chair_1 (self f) + way_1) (self f)) f) ;;
  advance_timer.

(** Back half-step (run.py:150-157). *)
Definition back_half (way_1 way_2 : R) : M unit :=
  modify (fun f => set_self (set_pos_chair_2 (pos_chair_2 (self f) + way_1) (self f)) f) ;;
  a2 <- eval (alpha_2 way_2) ;;
  check_angle a2 ;;
  modify (fun f => set_self (set_pos_2 (pos_2 (self f) + way_2) (self f)) f) ;;
  advance_timer.

(** One iteration of the [while] loop (run.py:142-158). *)
Definition body (way_1 way_2 : R) : M unit :=
  front_half way_1 ;;
  back_half way_1 way_2 ;;
  _check_position.

(** The [while timer < self.time] loop; [None] when the fuel runs out. *)
Fixpoint move_loop (fuel : nat) (way_1 way_2 : R) (f : Frame)
    : option (Frame * Exc R) :=
  match fuel with
  | O => None
  | S fuel' =>
      if Rlt_dec (timer f) (time (self f)) then
        match body way_1 way_2 f with
        | (f', inl e) => Some (f', inl e)
        | (f', inr _) => move_loop fuel' way_1 way_2 f'
        end
      else Some (f, inr (total_way f))
  end.

(** [Chair.move] (run.py:128-159). *)
Definition move (fuel : nat) (c : Chair) (way_1 way_2 : R)
    : option (Frame * Exc R) :=
  move_loop fuel way_1 way_2 (mkFrame c 0 0).

(** [n] iterations of the loop body in a row, none of which raises. *)
Fixpoint iterate (n : nat) (way_1 way_2 : R) (f : Frame) : option Frame :=
  match n with
  | O => Some f
  | S n' =>
      match body way_1 way_2 f with
      | (f', inr _) => iterate n' way_1 way_2 f'
      | (_, inl _) => None
      end
  end.

(** The configuration that [run.py] constructs at line 163. *)
Definition reference : Chair := Chair_init 40 60 80 2 1000 2 2 (1 / 10).

(** Frames reached inside a half-step, written out. *)
Definition front_moved (way_1 : R) (f : Frame) : Frame :=
  set_self (set_pos_1 (pos_1 (self f) + way_1) (self f)) f.

Definition front_done (way_1 : R) (f : Frame) : Frame :=
  mkFrame
    (set_pos_chair_1 (pos_chair_1 (self f) + way_1)
                     (set_pos_1 (pos_1 (self f) + way_1) (self f)))
    (total_way f + way_1)
    (timer f + (time_step (self f) + pause (self f))).

Definition back_moved (way_1 : R) (f : Frame) : Frame :=
  set_self (set_pos_chair_2 (pos_chair_2 (self f) + way_1) (self f)) f.

Definition back_done (way_1 way_2 : R) (f : Frame) : Frame :=
  mkFrame
    (set_pos_2 (pos_2 (self f) + way_2)
               (set_pos_chair_2 (pos_chair_2 (self f) + way_1) (self f)))
    (total_way f)
    (timer f + (time_step (self f) + pause (self f))).

(** The frame after one whole iteration in which nothing is raised. *)
Definition iteration_done (way_1 way_2 : R) (f : Frame) : Frame :=
  back_done way_1 way_2 (front_done way_1 f).

(** The seat midpoint lies between the two leg positions. *)
Definition supported (c : Chair) : Prop :=
  pos_2 c <= seat_mid c <= pos_1 c.

(** The sum of [n] increments of [way_1], as [total_way] accumulates them. *)
Definition sum_of_steps (n : nat) (way_1 : R) : R :=
  fold_right Rplus 0 (repeat way_1 n).

(** Loop-head shape when both steps are equal: each seat edge stands over
    its leg pair and the back legs are not in front of the front legs. *)
Definition aligned (f : Frame) : Prop :=
  pos_chair_1 (self f) = pos_1 (self f) /\
  pos_chair_2 (self f) = pos_2 (self f) /\
  pos_2 (self f) <= pos_1 (self f).

(** The attributes that [move] never assigns. *)
Definition same_config (c c' : Chair) : Prop :=
  length_leg c' = length_leg c /\
  length_chair c' = length_chair c /\
  alpha_max c' = alpha_max c /\
  time c' = time c /\
  pause c' = pause c /\
  time_step c' = time_step c.

(** A chair like the reference one whose time allows a single iteration. *)
Definition short_chair : Chair := Chair_init 40 60 80 2 8 2 2 (1 / 10).

(** A chair like the reference one with a friction coefficient of 4. *)
Definition rough_chair : Chair := Chair_init 40 60 80 2 1000 2 2 4.

(** ** The result store: class [Result] (run.py:42-79)

    A file is modelled by what reading it as UTF-8 and [json.load] make of
    it: a JSON value, a text that is not JSON, or bytes that are not UTF-8.
    A JSON object is the list of its members in order, as a Python [dict]
    keeps them.

    A Python [str] is modelled by the bytes of its UTF-8 form.  A lone
    surrogate (U+D800 to U+DFFF), which [json.load] makes of an escape such
    as [\ud800], has no UTF-8 form: it is modelled by the three bytes that
    the [surrogatepass] handler gives it, of which the first is ED and the
    second lies in A0..BF, and no other character has such bytes. *)

Fixpoint has_surrogate (s : string) : bool :=
  match s with
  | EmptyString => false
  | String a s' =>
      match s' with
      | EmptyString => false
      | String b _ =>
          orb (andb (Ascii.eqb a "237"%char) (160 <=? nat_of_ascii b)%nat)
              (has_surrogate s')
      end
  end.


#[local] Unset Elimination Schemes.
Inductive json : Type :=
| JNull
| JBool (b : bool)
| JInt (n : Z)
| JFloat (x : R)
| JStr (s : string)
| JArray (items : list json)
| JObject (members : list (string * json)).
#[local] Set Elimination Schemes.

(** Whether a string of the value, a key included, holds a lone surrogate. *)
Fixpoint json_has_surrogate (j : json) : bool :=
  match j with
  | JStr s => has_surrogate s
  | JArray items => existsb json_has_surrogate items
  | JObject members =>
      existsb (fun kv => orb (has_surrogate (fst kv)) (json_has_surrogate (snd kv)))
              members
  | _ => false
  end.

Inductive content : Type :=
| Json (j : json)
| NotJson      (* UTF-8 text that is not JSON *)
| NotUtf8.     (* bytes that are not UTF-8 text *)

Definition files : Type := string -> option content.

Definition write_file (path : string) (c : content) (fs : files) : files :=
  fun p => if String.eqb p path then Some c else fs p.

(** What [Result.res_to_json] can raise. *)
Inductive io_exn : Type :=
| FileNotFoundError     (* open(..., 'r') of a missing file *)
| UnicodeDecodeError    (* reading bytes that are not UTF-8 *)
| JSONDecodeError       (* json.load of a text that is not JSON *)
| AttributeError        (* .update on a value that is not a dict *)
| UnicodeEncodeError.   (* writing a string that holds a lone surrogate *)

(** [d[k]], the first member under [k]. *)
Fixpoint dict_get (k : string) (d : list (string * json)) : option json :=
  match d with
  | [] => None
  | (k', v') :: d' => if String.eqb k' k then Some v' else dict_get k d'
  end.

(** [d[k] = v]: an existing key keeps its place, a new one goes last. *)
Fixpoint dict_set (k : string) (v : json) (d : list (string * json))
    : list (string * json) :=
  match d with
  | [] => [(k, v)]
  | (k', v') :: d' =>
      if String.eqb k' k then (k, v) :: d' else (k', v') :: dict_set k v d'
  end.

(** [d.update(other)]. *)
Definition dict_update (d other : list (string * json)) : list (string * json) :=
  fold_left (fun acc kv => dict_set (fst kv) (snd kv) acc) other d.

Record Result : Type := mkResult {
  result : json;
  name : string
}.

(** [Result._res_to_dict] (run.py:55-62). *)
Definition _res_to_dict (r : Result) : list (string * json) :=
  [(name r, result r)].

(** [json.dump(json_data, file, indent=4, ensure_ascii=False)] into
    [result.json], opened with ['w'] (run.py:78-79).  Opening empties the
    file; the strings are written as they are, so one that holds a lone
    surrogate stops the writing with [UnicodeEncodeError], and what is then
    in the file is the beginning of a JSON text, which is not JSON. *)
Definition dump_result (json_data : list (string * json)) (fs : files)
    : files * (io_exn + unit) :=
  if json_has_surrogate (JObject json_data)
  then (write_file "result.json"%string NotJson fs, inl UnicodeEncodeError)
  else (write_file "result.json"%string (Json (JObject json_data)) fs, inr tt).

(** [Result.res_to_json] (run.py:64-79): the existence test and the empty
    object go to [grades.json], the reading and the writing to
    [result.json]. *)
Definition res_to_json (r : Result) (fs : files) : files * (io_exn + unit) :=
  let data_dict := _res_to_dict r in
  let file_path := "grades.json"%string in
  let fs1 :=
    match fs file_path with
    | None => write_file file_path (Json (JObject [])) fs
    | Some _ => fs
    end in
  match fs1 "result.json"%string with
  | None => (fs1, inl FileNotFoundError)
  | Some NotUtf8 => (fs1, inl UnicodeDecodeError)
  | Some NotJson => (fs1, inl JSONDecodeError)
  | Some (Json (JObject json_data)) =>
      dump_result (dict_update json_data data_dict) fs1
  | Some (Json _) => (fs1, inl AttributeError)
  end.

(** The store once [grades.json] has been looked after (run.py:71-73). *)
Definition grades_ensured (fs : files) : files :=
  match fs "grades.json"%string with
  | None => write_file "grades.json"%string (Json (JObject [])) fs
  | Some _ => fs
  end.

(** Two stores used as instances: an empty directory, and one whose
    [result.json] holds a single entry. *)
Definition no_files : files := fun _ => None.

Definition bob_store : files :=
  fun p =>
    if String.eqb p "result.json"
    then Some (Json (JObject [("bob"%string, JInt 3)]))
    else None.


(** ** The program (run.py:162-181) *)

(** The literal [3733.022748825491] as Python reads it: the double
    [8209003838171907 / 2^41]. *)
Definition grade_5_from : R := 8209003838171907 / 2199023255552.

(** The product [0.99 * 3733.022748825491] as Python computes it: the
    double [2031728449947547 / 2^39], printed [3695.692521337236]. *)
Definition grade_4_above : R := 2031728449947547 / 549755813888.

(** The grade of a distance (run.py:169-174). *)
Definition grade (res : R) : Z :=
  if Rge_dec res grade_5_from then 5%Z
  else if Rgt_dec res grade_4_above then 4%Z
  else 3%Z.

(** The three values read from the [task] module, by their [type()]; a
    [float] is taken with the finite value it has. *)
Inductive pyobj : Type :=
| PyStr (s : string)
| PyInt (n : Z)
| PyFloat (x : R)
| PyOther.

(** The number behind an object whose type is [int] or [float]. *)
Definition number_of (o : pyobj) : option R :=
  match o with
  | PyInt n => Some (IZR n)
  | PyFloat x => Some x
  | _ => None
  end.

(** What [except Exception as e] catches. *)
Inductive py_exception : Type :=
| MoveError (e : exn)
| StoreError (e : io_exn).

Definition invalid_input : string := "Неверные входные данные".

Section Program.

(** Python's [str(e)]: the text of an exception.  It prints a float, hence
    it is taken as given. *)
Variable str : py_exception -> string.

(** The [except] branch (run.py:177-179); what [res_to_json] raises there
    leaves the program. *)
Definition on_exception (e : py_exception) (name : string) (fs : files)
    : files * list string * option io_exn :=
  match res_to_json (mkResult (JStr (str e)) name) fs with
  | (fs', inr _) => (fs', [], None)
  | (fs', inl e') => (fs', [], Some e')
  end.

(** The [__main__] block: the disk afterwards, what was printed, and the
    exception that left the program, if any; [None] when [move] runs out of
    fuel. *)
Definition main (fuel : nat) (student front_legs_distance back_legs_distance : pyobj)
    (fs : files) : option (files * list string * option io_exn) :=
  match student, number_of front_legs_distance, number_of back_legs_distance with
  | PyStr name, Some way_1, Some way_2 =>
      match move fuel reference way_1 way_2 with
      | None => None
      | Some (_, inr res) =>
          match res_to_json (mkResult (JInt (grade res)) name) fs with
          | (fs', inr _) => Some (fs', [], None)
          | (fs', inl e) => Some (on_exception (StoreError e) name fs')
          end
      | Some (_, inl e) => Some (on_exception (MoveError e) name fs)
      end
  | _, _, _ => Some (fs, [invalid_input], None)
  end.

End Program.

(** A rendering of exceptions used as an instance of [str]. *)
Definition plain_str (e : py_exception) : string := "error".

(** ** Facts about arcsine, arctangent and square roots *)

Lemma asin_le_sin (y b : R) :
  -1 <= y <= 1 -> - (PI / 2) <= b <= PI / 2 ->
  (asin y <= b <-> y <= sin b).
Proof.
  intros Hy Hb. pose proof (asin_bound y) as Ha.
  rewrite <- (sin_asin y Hy) at 2.
  split; intros H.
  - apply sin_incr_1; lra.
  - apply sin_incr_0; lra.
Qed.

Lemma asin_le_compat (x y : R) :
  -1 <= x <= 1 -> -1 <= y <= 1 -> x <= y -> asin x <= asin y.
Proof.
  intros Hx Hy Hxy.
  apply (asin_le_sin x (asin y) Hx (asin_bound y)).
  rewrite sin_asin; assumption.
Qed.

Lemma asin_nonneg (y : R) : 0 <= y <= 1 -> 0 <= asin y.
Proof.
  intros Hy. rewrite <- asin_0. apply asin_le_compat; lra.
Qed.

Lemma atan_in_range (m : R) : - (PI / 2) <= atan m <= PI / 2.
Proof.
  pose proof (atan_bound m). lra.
Qed.

Lemma sqrt_1_plus_sqr_bounds (m : R) : 1 <= sqrt (1 + m²) <= 1 + Rabs m.
Proof.
  pose proof (Rle_0_sqr m) as Hm. pose proof (Rabs_pos m) as Ha.
  split.
  - rewrite <- sqrt_1 at 1. apply sqrt_le_1_alt. lra.
  - rewrite <- (sqrt_Rsqr (1 + Rabs m)) by lra.
    apply sqrt_le_1_alt. unfold Rsqr.
    assert (E : Rabs m * Rabs m = m * m).
    { fold (Rsqr (Rabs m)). rewrite <- Rsqr_abs. reflexivity. }
    nra.
Qed.

Lemma sin_atan_bounds (m : R) :
  0 <= m -> m / (1 + m) <= sin (atan m) <= m.
Proof.
  intros Hm. rewrite sin_atan.
  pose proof (sqrt_1_plus_sqr_bounds m) as [Hl Hu].
  rewrite (Rabs_pos_eq m Hm) in Hu.
  assert (Hs : 0 < sqrt (1 + m²)) by lra.
  split.
  - unfold Rdiv. apply Rmult_le_compat_l; [ exact Hm | ].
    apply Rinv_le_contravar; assumption.
  - apply (Rmult_le_reg_r (sqrt (1 + m²))); [ exact Hs | ].
    unfold Rdiv. rewrite Rmult_assoc, Rinv_l, Rmult_1_r by lra. nra.
Qed.

Lemma asin_gt_atan (y m : R) :
  -1 <= y <= 1 -> 0 <= m -> m < y -> asin y > atan m.
Proof.
  intros Hy Hm Hlt. apply Rnot_le_gt. intros H.
  apply (asin_le_sin y (atan m) Hy (atan_in_range m)) in H.
  pose proof (sin_atan_bounds m Hm). lra.
Qed.

Lemma asin_le_atan (y m : R) :
  -1 <= y <= 1 -> 0 <= m -> y * (1 + m) <= m -> asin y <= atan m.
Proof.
  intros Hy Hm Hle.
  apply (asin_le_sin y (atan m) Hy (atan_in_range m)).
  apply Rle_trans with (m / (1 + m)); [ | apply sin_atan_bounds; exact Hm ].
  apply (Rmult_le_reg_r (1 + m)); [ lra | ].
  unfold Rdiv. rewrite Rmult_assoc, Rinv_l, Rmult_1_r by lra. exact Hle.
Qed.

Lemma sqrt_unit_bounds (t : R) : 0 <= t <= 1 -> t <= sqrt t <= 1.
Proof.
  intros Ht.
  assert (H1 : sqrt t <= 1).
  { rewrite <- sqrt_1. apply sqrt_le_1_alt. lra. }
  pose proof (sqrt_pos t) as H0.
  pose proof (sqrt_sqrt t (proj1 Ht)) as E.
  split; [ nra | exact H1 ].
Qed.

Lemma quotient_unit (w L : R) : 0 < w <= L -> 0 < w / L <= 1.
Proof.
  intros [Hw HL]. split.
  - apply Rdiv_lt_0_compat; lra.
  - apply (Rmult_le_reg_r L); [ lra | ].
    unfold Rdiv. rewrite Rmult_assoc, Rinv_l, Rmult_1_r, Rmult_1_l; lra.
Qed.

Lemma one_minus_sqr_unit (x : R) : 0 <= x <= 1 -> 0 <= 1 - x² <= 1.
Proof.
  intros Hx. unfold Rsqr. nra.
Qed.

(** ** Values of the tilt expression *)

Lemma math_tan_acos (x : R) :
  -1 <= x <= 1 -> x <> 0 -> math_tan (acos x) = tan (acos x).
Proof.
  intros Hx Hn. unfold math_tan. rewrite cos_acos by exact Hx.
  destruct (Req_dec_T x 0) as [E | _]; [ contradiction | reflexivity ].
Qed.



Lemma py_div_error (a b : R) (e : exn) :
  py_div a b = inl e -> e = ZeroDivisionError.
Proof.
  unfold py_div. destruct (Req_dec_T b 0); congruence.
Qed.

Lemma math_acos_error (x : R) (e : exn) :
  math_acos x = inl e -> e = ValueError.
Proof.
  unfold math_acos. destruct (in_unit_interval_dec x); congruence.
Qed.

Lemma math_asin_error (x : R) (e : exn) :
  math_asin x = inl e -> e = ValueError.
Proof.
  unfold math_asin. destruct (in_unit_interval_dec x); congruence.
Qed.

(** The tilt expression raises nothing but the two numeric errors. *)
Lemma tilt_error (L C d way : R) (e : exn) :
  tilt L C d way = inl e -> numeric_failure e.
Proof.
  unfold tilt, ebind.
  destruct (py_div (Rabs d) L) as [e1 | x] eqn:H1.
  { intros H; injection H as <-. apply py_div_error in H1. subst; exact I. }
  destruct (math_acos x) as [e2 | th] eqn:H2.
  { intros H; injection H as <-. apply math_acos_error in H2. subst; exact I. }
  destruct (py_div (L - math_tan th * way) C) as [e3 | y] eqn:H3.
  { intros H; injection H as <-. apply py_div_error in H3. subst; exact I. }
  intros H. apply math_asin_error in H. subst; exact I.
Qed.

Lemma tilt_Rabs (L C d d' way : R) :
  Rabs d = Rabs d' -> tilt L C d way = tilt L C d' way.
Proof.
  intros H. unfold tilt. rewrite H. reflexivity.
Qed.

Lemma tilt_value (L C d way : R) :
  L <> 0 -> C <> 0 ->
  -1 <= Rabs d / L <= 1 ->
  -1 <= (L - math_tan (acos (Rabs d / L)) * way) / C <= 1 ->
  tilt L C d way = inr (asin ((L - math_tan (acos (Rabs d / L)) * way) / C)).
Proof.
  intros HL HC Hx Hy. unfold tilt, ebind, py_div, math_acos, math_asin.
  destruct (Req_dec_T L 0) as [E | _]; [ contradiction | ].
  destruct (in_unit_interval_dec (Rabs d / L)) as [_ | N]; [ | contradiction ].
  destruct (Req_dec_T C 0) as [E | _]; [ contradiction | ].
  destruct (in_unit_interval_dec ((L - math_tan (acos (Rabs d / L)) * way) / C))
    as [_ | N]; [ reflexivity | contradiction ].
Qed.




(** [math_tan (acos (w / L)) * w] is the horizontal leg [L * sqrt (1 - (w / L)²)]. *)
Lemma tan_acos_step (w L : R) :
  0 < w <= L -> math_tan (acos (w / L)) * w = L * sqrt (1 - (w / L)²).
Proof.
  intros H. pose proof (quotient_unit w L H) as Hx.
  rewrite math_tan_acos by lra.
  rewrite tan_acos by lra. field. lra.
Qed.

Lemma tilt_positive_step (L C d w : R) :
  0 < w <= L -> L <= C -> Rabs d = w ->
  tilt L C d w = inr (asin ((L - L * sqrt (1 - (w / L)²)) / C)) /\
  0 <= (L - L * sqrt (1 - (w / L)²)) / C <= 1.
Proof.
  intros Hw HC Hd.
  pose proof (quotient_unit w L Hw) as Hx.
  pose proof (sqrt_unit_bounds (1 - (w / L)²)
                (one_minus_sqr_unit (w / L) ltac:(lra))) as Hs.
  pose proof (sqrt_pos (1 - (w / L)²)) as Hs0.
  assert (Hy : 0 <= (L - L * sqrt (1 - (w / L)²)) / C <= 1).
  { split.
    - apply Rmult_le_pos; [ nra | ]. left. apply Rinv_0_lt_compat. lra.
    - apply (Rmult_le_reg_r C); [ lra | ].
      unfold Rdiv. rewrite Rmult_assoc, Rinv_l, Rmult_1_r, Rmult_1_l by lra. nra. }
  split; [ | exact Hy ].
  assert (E : (L - math_tan (acos (Rabs d / L)) * w) / C
              = (L - L * sqrt (1 - (w / L)²)) / C).
  { rewrite Hd, tan_acos_step by exact Hw. reflexivity. }
  rewrite tilt_value.
  - rewrite E. reflexivity.
  - lra.
  - lra.
  - rewrite Hd. lra.
  - rewrite E. lra.
Qed.

(** ** The half-steps and the loop body, case by case *)

Lemma front_half_eq (way_1 : R) (f : Frame) :
  front_half way_1 f =
  match alpha_1 way_1 (front_moved way_1 f) with
  | inl e => (front_moved way_1 f, inl e)
  | inr a =>
      if Rgt_dec a (alpha_max (self f))
      then (front_moved way_1 f, inl (InvalidValueAngle a))
      else (front_done way_1 f, inr tt)
  end.
Proof.
  unfold front_half, bind, modify, eval, check_angle, advance_timer, raise, ret.
  fold (front_moved way_1 f).
  destruct (alpha_1 way_1 (front_moved way_1 f)) as [e | a]; [ reflexivity | ].
  simpl. destruct (Rgt_dec a (alpha_max (self f))); reflexivity.
Qed.

Lemma back_half_eq (way_1 way_2 : R) (f : Frame) :
  back_half way_1 way_2 f =
  match alpha_2 way_2 (back_moved way_1 f) with
  | inl e => (back_moved way_1 f, inl e)
  | inr a =>
      if Rgt_dec a (alpha_max (self f))
      then (back_moved way_1 f, inl (InvalidValueAngle a))
      else (back_done way_1 way_2 f, inr tt)
  end.
Proof.
  unfold back_half, bind, modify, eval, check_angle, advance_timer, raise, ret.
  fold (back_moved way_1 f).
  destruct (alpha_2 way_2 (back_moved way_1 f)) as [e | a]; [ reflexivity | ].
  simpl. destruct (Rgt_dec a (alpha_max (self f))); reflexivity.
Qed.

Lemma body_eq (way_1 way_2 : R) (f : Frame) :
  body way_1 way_2 f =
  match front_half way_1 f with
  | (f1, inl e) => (f1, inl e)
  | (f1, inr _) =>
      match back_half way_1 way_2 f1 with
      | (f2, inl e) => (f2, inl e)
      | (f2, inr _) => _check_position f2
      end
  end.
Proof.
  unfold body, bind.
  destruct (front_half way_1 f) as [f1 [e | u]]; [ reflexivity | ].
  destruct (back_half way_1 way_2 f1) as [f2 [e | u']]; reflexivity.
Qed.

Lemma check_position_eq (f : Frame) :
  (supported (self f) -> _check_position f = (f, inr tt)) /\
  (~ supported (self f) -> _check_position f = (f, inl InvalidValueError)).
Proof.
  unfold _check_position, supported, raise, ret.
  destruct (Rgt_dec (seat_mid (self f)) (pos_1 (self f))) as [Hg | Hg];
    [ split; [ lra | reflexivity ] | ].
  destruct (Rlt_dec (seat_mid (self f)) (pos_2 (self f))) as [Hl | Hl];
    [ split; [ lra | reflexivity ] | ].
  split; [ reflexivity | lra ].
Qed.

Lemma front_half_ok (way_1 : R) (f f1 : Frame) (u : unit) :
  front_half way_1 f = (f1, inr u) ->
  f1 = front_done way_1 f /\
  exists a, alpha_1 way_1 (front_moved way_1 f) = inr a /\ ~ a > alpha_max (self f).
Proof.
  rewrite front_half_eq.
  destruct (alpha_1 way_1 (front_moved way_1 f)) as [e | a]; [ discriminate | ].
  destruct (Rgt_dec a (alpha_max (self f))) as [Hg | Hg]; [ discriminate | ].
  intros H. injection H as <-. split; [ reflexivity | ]. exists a. tauto.
Qed.

Lemma back_half_ok (way_1 way_2 : R) (f f2 : Frame) (u : unit) :
  back_half way_1 way_2 f = (f2, inr u) ->
  f2 = back_done way_1 way_2 f /\
  exists a, alpha_2 way_2 (back_moved way_1 f) = inr a /\ ~ a > alpha_max (self f).
Proof.
  rewrite back_half_eq.
  destruct (alpha_2 way_2 (back_moved way_1 f)) as [e | a]; [ discriminate | ].
  destruct (Rgt_dec a (alpha_max (self f))) as [Hg | Hg]; [ discriminate | ].
  intros H. injection H as <-. split; [ reflexivity | ]. exists a. tauto.
Qed.

(** An iteration that raises nothing ends in [iteration_done]. *)
Lemma body_ok (way_1 way_2 : R) (f f' : Frame) (u : unit) :
  body way_1 way_2 f = (f', inr u) ->
  f' = iteration_done way_1 way_2 f.
Proof.
  rewrite body_eq.
  destruct (front_half way_1 f) as [f1 [e | u1]] eqn:Hf; [ discriminate | ].
  apply front_half_ok in Hf. destruct Hf as [-> _].
  destruct (back_half way_1 way_2 (front_done way_1 f)) as [f2 [e | u2]] eqn:Hb;
    [ discriminate | ].
  apply back_half_ok in Hb. destruct Hb as [-> _].
  unfold _check_position, raise, ret.
  repeat match goal with |- context [if ?d then _ else _] => destruct d end;
    intros H; try discriminate; injection H as <-; reflexivity.
Qed.

(** Each iteration that raises nothing adds [time_step + pause] to [timer]
    twice and [way_1] to [total_way] once, and leaves the configuration. *)
Lemma body_ok_fields (way_1 way_2 : R) (f f' : Frame) (u : unit) :
  body way_1 way_2 f = (f', inr u) ->
  timer f' = timer f + 2 * (time_step (self f) + pause (self f)) /\
  total_way f' = total_way f + way_1 /\
  time (self f') = time (self f) /\
  time_step (self f') = time_step (self f) /\
  pause (self f') = pause (self f).
Proof.
  intros H. apply body_ok in H. subst f'. simpl.
  repeat split. ring.
Qed.

Lemma body_front_raise (way_1 way_2 : R) (f f1 : Frame) (e : exn) :
  front_half way_1 f = (f1, inl e) ->
  body way_1 way_2 f = (f1, inl e).
Proof.
  intros H. rewrite body_eq, H. reflexivity.
Qed.

Lemma front_half_raises_angle (way_1 : R) (f : Frame) (a : R) :
  alpha_1 way_1 (front_moved way_1 f) = inr a ->
  a > alpha_max (self f) ->
  front_half way_1 f = (front_moved way_1 f, inl (InvalidValueAngle a)).
Proof.
  intros Ha Hg. rewrite front_half_eq, Ha.
  destruct (Rgt_dec a (alpha_max (self f))); [ reflexivity | contradiction ].
Qed.


(** An iteration passes when both angles are admissible and the seat is
    supported afterwards. *)
Lemma body_passes (way_1 way_2 : R) (f : Frame) (a1 a2 : R) :
  alpha_1 way_1 (front_moved way_1 f) = inr a1 ->
  ~ a1 > alpha_max (self f) ->
  alpha_2 way_2 (back_moved way_1 (front_done way_1 f)) = inr a2 ->
  ~ a2 > alpha_max (self f) ->
  supported (self (iteration_done way_1 way_2 f)) ->
  body way_1 way_2 f = (iteration_done way_1 way_2 f, inr tt).
Proof.
  intros H1 Hle1 H2 Hle2 Hs.
  rewrite body_eq, front_half_eq, H1.
  destruct (Rgt_dec a1 (alpha_max (self f))) as [Hg | _]; [ contradiction | ].
  rewrite back_half_eq, H2.
  change (alpha_max (self (front_done way_1 f))) with (alpha_max (self f)).
  destruct (Rgt_dec a2 (alpha_max (self f))) as [Hg | _]; [ contradiction | ].
  apply check_position_eq. exact Hs.
Qed.

Lemma same_config_trans (c1 c2 c3 : Chair) :
  same_config c1 c2 -> same_config c2 c3 -> same_config c1 c3.
Proof.
  unfold same_config. intros (A1 & A2 & A3 & A4 & A5 & A6) (B1 & B2 & B3 & B4 & B5 & B6).
  repeat split; congruence.
Qed.

Lemma iteration_done_config (way_1 way_2 : R) (f : Frame) :
  same_config (self f) (self (iteration_done way_1 way_2 f)).
Proof.
  unfold same_config. simpl. tauto.
Qed.

(** ** The loop *)

Lemma move_loop_raise (fuel : nat) (way_1 way_2 : R) (f f' : Frame) (e : exn) :
  timer f < time (self f) ->
  body way_1 way_2 f = (f', inl e) ->
  move_loop (S fuel) way_1 way_2 f = Some (f', inl e).
Proof.
  intros Ht Hb. simpl.
  destruct (Rlt_dec (timer f) (time (self f))) as [_ | Hn]; [ | contradiction ].
  rewrite Hb. reflexivity.
Qed.

Lemma move_loop_next (fuel : nat) (way_1 way_2 : R) (f f' : Frame) (u : unit) :
  timer f < time (self f) ->
  body way_1 way_2 f = (f', inr u) ->
  move_loop (S fuel) way_1 way_2 f = move_loop fuel way_1 way_2 f'.
Proof.
  intros Ht Hb. simpl.
  destruct (Rlt_dec (timer f) (time (self f))) as [_ | Hn]; [ | contradiction ].
  rewrite Hb. reflexivity.
Qed.

Lemma move_loop_exit (fuel : nat) (way_1 way_2 : R) (f : Frame) :
  ~ timer f < time (self f) ->
  move_loop (S fuel) way_1 way_2 f = Some (f, inr (total_way f)).
Proof.
  intros Ht. simpl.
  destruct (Rlt_dec (timer f) (time (self f))) as [Hn | _]; [ contradiction | ].
  reflexivity.
Qed.

(** More fuel does not change a result. *)
Lemma move_loop_fuel (n m : nat) (way_1 way_2 : R) (f : Frame) (r : Frame * Exc R) :
  (n <= m)%nat ->
  move_loop n way_1 way_2 f = Some r ->
  move_loop m way_1 way_2 f = Some r.
Proof.
  revert m f. induction n as [ | n IH]; intros m f Hle H; [ discriminate | ].
  destruct m as [ | m]; [ lia | ].
  simpl in *.
  destruct (Rlt_dec (timer f) (time (self f))); [ | exact H ].
  destruct (body way_1 way_2 f) as [f' [e | u]]; [ exact H | ].
  apply IH; [ lia | exact H ].
Qed.

(** With a positive time increment the loop ends within [n] iterations once
    the remaining time is at most [n] increments. *)
Lemma move_loop_terminates (way_1 way_2 : R) (n : nat) :
  forall f : Frame,
    0 < time_step (self f) + pause (self f) ->
    time (self f) - timer f <= INR n * (2 * (time_step (self f) + pause (self f))) ->
    exists f' r,
      move_loop (S n) way_1 way_2 f = Some (f', r) /\
      match r with
      | inr d => time (self f') <= timer f' /\ d = total_way f'
      | inl e => True
      end.
Proof.
  induction n as [ | n IH]; intros f Hd Hrem.
  - simpl in Hrem. exists f, (inr (total_way f)).
    split; [ apply move_loop_exit; lra | split; [ lra | reflexivity ] ].
  - destruct (Rlt_dec (timer f) (time (self f))) as [Ht | Ht].
    + destruct (body way_1 way_2 f) as [f1 [e | u]] eqn:Hb.
      * exists f1, (inl e). split; [ | exact I ].
        apply move_loop_raise; assumption.
      * rewrite (move_loop_next _ _ _ _ _ _ Ht Hb).
        destruct (body_ok_fields _ _ _ _ _ Hb) as (Et & _ & E1 & E2 & E3).
        apply IH; rewrite ?E1, ?E2, ?E3, ?Et; [ exact Hd | ].
        rewrite S_INR in Hrem. lra.
    + exists f, (inr (total_way f)).
      split; [ apply move_loop_exit; exact Ht | split; [ lra | reflexivity ] ].
Qed.

(** If [n] iterations pass, the timer is below [time] before each of them and
    not after the last, then the loop returns after exactly these [n]. *)
Lemma iterate_move_loop (way_1 way_2 : R) (n : nat) :
  forall (f fn : Frame),
    iterate n way_1 way_2 f = Some fn ->
    (forall k fk, (k < n)%nat -> iterate k way_1 way_2 f = Some fk ->
                  timer fk < time (self fk)) ->
    ~ timer fn < time (self fn) ->
    forall fuel, (n < fuel)%nat ->
      move_loop fuel way_1 way_2 f = Some (fn, inr (total_way fn)).
Proof.
  induction n as [ | n IH]; intros f fn Hi Hlt Hge fuel Hfuel.
  - simpl in Hi. injection Hi as <-.
    destruct fuel as [ | fuel]; [ lia | ]. apply move_loop_exit. exact Hge.
  - destruct fuel as [ | fuel]; [ lia | ].
    simpl in Hi.
    destruct (body way_1 way_2 f) as [f1 [e | u]] eqn:Hb; [ discriminate | ].
    assert (Ht : timer f < time (self f)).
    { apply (Hlt 0%nat f); [ lia | reflexivity ]. }
    rewrite (move_loop_next _ _ _ _ _ _ Ht Hb).
    apply IH; try assumption; [ | lia ].
    intros k fk Hk Hik. apply (Hlt (S k) fk); [ lia | ].
    simpl. rewrite Hb. exact Hik.
Qed.

(** Whatever the loop returns was accumulated over completed iterations. *)
Lemma move_loop_returns (way_1 way_2 : R) (fuel : nat) :
  forall (f f' : Frame) (d : R),
    move_loop fuel way_1 way_2 f = Some (f', inr d) ->
    exists n,
      iterate n way_1 way_2 f = Some f' /\
      d = total_way f' /\
      d = total_way f + INR n * way_1 /\
      ~ timer f' < time (self f').
Proof.
  induction fuel as [ | fuel IH]; intros f f' d H; [ discriminate | ].
  simpl in H.
  destruct (Rlt_dec (timer f) (time (self f))) as [Ht | Ht].
  - destruct (body way_1 way_2 f) as [f1 [e | u]] eqn:Hb; [ discriminate | ].
    destruct (IH _ _ _ H) as (n & Hi & Hd & Hs & Hx).
    destruct (body_ok_fields _ _ _ _ _ Hb) as (_ & Hw & _).
    exists (S n). split; [ simpl; rewrite Hb; exact Hi | ].
    rewrite S_INR. repeat split; try assumption. rewrite Hs, Hw. ring.
  - injection H as <- <-. exists 0%nat. simpl. repeat split; try assumption. ring.
Qed.

Lemma sum_of_steps_INR (n : nat) (way_1 : R) :
  sum_of_steps n way_1 = INR n * way_1.
Proof.
  unfold sum_of_steps. induction n as [ | n IH].
  - simpl. ring.
  - rewrite S_INR. simpl repeat. simpl fold_right. rewrite IH. ring.
Qed.

(** ** Runs with equal front and back steps *)

Section EqualSteps.

Variables (way a : R).

(** With equal steps and an aligned frame, both half-steps see the offset
    [way] (up to sign), so one admissible angle lets the whole iteration
    pass, and the frame stays aligned. *)
Lemma uniform_body (f : Frame) :
  aligned f ->
  tilt (length_leg (self f)) (length_chair (self f)) way way = inr a ->
  ~ a > alpha_max (self f) ->
  body way way f = (iteration_done way way f, inr tt) /\
  aligned (iteration_done way way f).
Proof.
  intros (A1 & A2 & A3) Ha Hle.
  assert (H1 : alpha_1 way (front_moved way f) = inr a).
  { unfold alpha_1. simpl. rewrite <- Ha. apply tilt_Rabs.
    rewrite A1, Rabs_minus_sym. f_equal. ring. }
  assert (H2 : alpha_2 way (back_moved way (front_done way f)) = inr a).
  { unfold alpha_2. simpl. rewrite <- Ha. apply tilt_Rabs.
    rewrite A2. f_equal. ring. }
  assert (Hal : aligned (iteration_done way way f)).
  { unfold aligned. simpl. rewrite A1, A2. repeat split. lra. }
  split; [ | exact Hal ].
  apply (body_passes way way f a a H1 Hle H2 Hle).
  destruct Hal as (B1 & B2 & B3).
  unfold supported, seat_mid. rewrite B1, B2. lra.
Qed.

Lemma uniform_iterate (n : nat) :
  forall f : Frame,
    aligned f ->
    tilt (length_leg (self f)) (length_chair (self f)) way way = inr a ->
    ~ a > alpha_max (self f) ->
    exists fn,
      iterate n way way f = Some fn /\
      aligned fn /\
      same_config (self f) (self fn) /\
      timer fn = timer f + INR n * (2 * (time_step (self f) + pause (self f))) /\
      total_way fn = total_way f + INR n * way.
Proof.
  induction n as [ | n IH]; intros f Hal Ha Hle.
  - exists f. simpl. repeat split; try apply Hal; try ring.
  - destruct (uniform_body f Hal Ha Hle) as [Hb Hal'].
    destruct (IH (iteration_done way way f) Hal') as (fn & Hi & Hn & Hc & Ht & Hw).
    + exact Ha.
    + exact Hle.
    + exists fn. split; [ simpl; rewrite Hb; exact Hi | ].
      split; [ exact Hn | ].
      split; [ exact (same_config_trans _ _ _ (iteration_done_config way way f) Hc) | ].
      rewrite Ht, Hw, S_INR. simpl. split; ring.
Qed.

(** With equal admissible steps the loop returns after exactly the [n]
    iterations the timer allows. *)
Lemma uniform_move_loop (n : nat) (f : Frame) :
  aligned f ->
  tilt (length_leg (self f)) (length_chair (self f)) way way = inr a ->
  ~ a > alpha_max (self f) ->
  (forall k, (k < n)%nat ->
     timer f + INR k * (2 * (time_step (self f) + pause (self f))) < time (self f)) ->
  ~ timer f + INR n * (2 * (time_step (self f) + pause (self f))) < time (self f) ->
  exists fn,
    iterate n way way f = Some fn /\
    total_way fn = total_way f + INR n * way /\
    forall fuel, (n < fuel)%nat ->
      move_loop fuel way way f = Some (fn, inr (total_way fn)).
Proof.
  intros Hal Ha Hle Hlt Hge.
  destruct (uniform_iterate n f Hal Ha Hle) as (fn & Hi & _ & Hc & Ht & Hw).
  exists fn. split; [ exact Hi | ]. split; [ exact Hw | ].
  intros fuel Hfuel. apply (iterate_move_loop way way n f fn Hi); [ | | exact Hfuel ].
  - intros k fk Hk Hik.
    destruct (uniform_iterate k f Hal Ha Hle) as (fk' & Hi' & _ & Hc' & Ht' & _).
    rewrite Hik in Hi'. injection Hi' as <-.
    destruct Hc' as (_ & _ & _ & E & _). rewrite Ht', E. apply Hlt. exact Hk.
  - destruct Hc as (_ & _ & _ & E & _). rewrite Ht, E. exact Hge.
Qed.


End EqualSteps.

(** ** The reference configuration *)

Lemma aligned_init (lw L C ww T p ts mu : R) :
  0 <= C -> aligned (mkFrame (Chair_init lw L C ww T p ts mu) 0 0).
Proof.
  intros HC. unfold aligned. simpl. repeat split. exact HC.
Qed.

Lemma INR_125 : INR 125 = 125.
Proof.
  rewrite INR_IZR_INZ. reflexivity.
Qed.

Lemma reference_angle_bound : asin (3 / 4) > alpha_max reference.
Proof.
  simpl. unfold math_atan. apply asin_gt_atan; lra.
Qed.

(** A front step as long as the leg: the offset quotient is [1], the tangent
    of [acos 1] is [0], and the angle is [asin (60 / 80)]. *)
Lemma reference_front_60 :
  alpha_1 60 (front_moved 60 (mkFrame reference 0 0)) = inr (asin (3 / 4)).
Proof.
  unfold alpha_1. simpl.
  assert (Ex : Rabs (80 - (80 + 60)) / 60 = 1).
  { rewrite Rabs_minus_sym. replace (80 + 60 - 80) with 60 by ring.
    rewrite Rabs_pos_eq by lra. field. }
  assert (Ey : (60 - math_tan (acos (Rabs (80 - (80 + 60)) / 60)) * 60) / 80
               = 3 / 4).
  { rewrite Ex, math_tan_acos by lra. rewrite acos_1, tan_0. field. }
  rewrite tilt_value; try lra.
  rewrite Ey. reflexivity.
Qed.



(** The reference chair with half-unit steps: the angle is admissible. *)
Lemma reference_half_angle :
  exists a,
    tilt 60 80 (1 / 2) (1 / 2) = inr a /\ 0 <= a /\ ~ a > alpha_max reference.
Proof.
  destruct (tilt_positive_step 60 80 (1 / 2) (1 / 2)) as [Ht Hy]; try lra.
  { apply Rabs_pos_eq. lra. }
  eexists. split; [ exact Ht | ].
  split; [ apply asin_nonneg; exact Hy | ].
  apply Rle_not_gt. simpl. unfold math_atan.
  set (x := 1 / 2 / 60) in *.
  assert (Hx : 0 <= x <= 1) by (unfold x; lra).
  pose proof (sqrt_unit_bounds (1 - x²) (one_minus_sqr_unit x Hx)) as Hs.
  assert (Hx2 : x² <= 1 / 14400) by (unfold x, Rsqr; lra).
  apply asin_le_atan; lra.
Qed.

(** A run of one iteration with unequal steps, [way_1 = 1 / 2] and
    [way_2 = 3 / 5]: the back angle is negative, hence admissible. *)
Lemma short_run_back_angle :
  exists a,
    tilt 60 80 (0 + 1 / 2 - 0) (3 / 5) = inr a /\ ~ a > atan (1 / 10).
Proof.
  assert (Ex : Rabs (0 + 1 / 2 - 0) / 60 = 1 / 120).
  { rewrite Rabs_pos_eq by lra. field. }
  pose proof (sqrt_unit_bounds (1 - (1 / 120)²)
                (one_minus_sqr_unit (1 / 120) ltac:(lra))) as Hs.
  assert (Hx2 : (1 / 120)² <= 1 / 14400) by (unfold Rsqr; lra).
  assert (Ey : (60 - math_tan (acos (Rabs (0 + 1 / 2 - 0) / 60)) * (3 / 5)) / 80
               = (60 - 72 * sqrt (1 - (1 / 120)²)) / 80).
  { rewrite Ex, math_tan_acos by lra. rewrite tan_acos by lra. field. }
  exists (asin ((60 - 72 * sqrt (1 - (1 / 120)²)) / 80)). split.
  - rewrite tilt_value; [ rewrite Ey; reflexivity | lra | lra | lra | ].
    rewrite Ey. lra.
  - apply Rle_not_gt. apply asin_le_atan; lra.
Qed.

Lemma short_run :
  move 2 (Chair_init 40 60 80 2 8 2 2 (1 / 10)) (1 / 2) (3 / 5) =
    Some (iteration_done (1 / 2) (3 / 5)
            (mkFrame (Chair_init 40 60 80 2 8 2 2 (1 / 10)) 0 0),
          inr (0 + 1 / 2)).
Proof.
  destruct reference_half_angle as (a1 & Ha1 & _ & Hle1).
  destruct short_run_back_angle as (a2 & Ha2 & Hle2).
  set (f := mkFrame (Chair_init 40 60 80 2 8 2 2 (1 / 10)) 0 0).
  assert (Hb : body (1 / 2) (3 / 5) f = (iteration_done (1 / 2) (3 / 5) f, inr tt)).
  { apply (body_passes (1 / 2) (3 / 5) f a1 a2).
    - unfold alpha_1. simpl. rewrite <- Ha1. apply tilt_Rabs.
      rewrite Rabs_minus_sym. f_equal. ring.
    - exact Hle1.
    - exact Ha2.
    - exact Hle2.
    - unfold supported, seat_mid. simpl. lra. }
  unfold move. fold f.
  assert (Ht : timer f < time (self f)) by (simpl; lra).
  rewrite (move_loop_next 1 _ _ _ _ _ Ht Hb).
  apply move_loop_exit. simpl. lra.
Qed.

(** ** Claims about a single half-step and a single iteration *)

(** C4: in each half-step (and hence in each loop iteration of [move]) the
    exception [InvalidValueAngle a] is raised exactly when the angle computed
    in that half-step is [a] and [a] is strictly greater than [alpha_max],
    which the constructor sets to [atan wood_mu]; an angle equal to
    [alpha_max] lets the half-step complete. *)
Theorem angle_exceeded_iff (way_1 way_2 : R) (f : Frame) (a : R) :
  (snd (front_half way_1 f) = inl (InvalidValueAngle a) <->
     alpha_1 way_1 (front_moved way_1 f) = inr a /\ a > alpha_max (self f)) /\
  (snd (back_half way_1 way_2 f) = inl (InvalidValueAngle a) <->
     alpha_2 way_2 (back_moved way_1 f) = inr a /\ a > alpha_max (self f)) /\
  (snd (body way_1 way_2 f) = inl (InvalidValueAngle a) <->
     snd (front_half way_1 f) = inl (InvalidValueAngle a) \/
     (front_half way_1 f = (front_done way_1 f, inr tt) /\
      snd (back_half way_1 way_2 (front_done way_1 f)) = inl (InvalidValueAngle a))) /\
  (forall fuel, timer f < time (self f) ->
     snd (body way_1 way_2 f) = inl (InvalidValueAngle a) ->
     move_loop (S fuel) way_1 way_2 f =
       Some (fst (body way_1 way_2 f), inl (InvalidValueAngle a))) /\
  (alpha_1 way_1 (front_moved way_1 f) = inr (alpha_max (self f)) ->
     front_half way_1 f = (front_done way_1 f, inr tt)) /\
  (alpha_2 way_2 (back_moved way_1 f) = inr (alpha_max (self f)) ->
     back_half way_1 way_2 f = (back_done way_1 way_2 f, inr tt)) /\
  (forall lw ll lc ww t p ts mu,
     alpha_max (Chair_init lw ll lc ww t p ts mu) = atan mu).
Proof.
  assert (Hfront : forall g,
    snd (front_half way_1 g) = inl (InvalidValueAngle a) <->
    alpha_1 way_1 (front_moved way_1 g) = inr a /\ a > alpha_max (self g)).
  { intros g. rewrite front_half_eq.
    destruct (alpha_1 way_1 (front_moved way_1 g)) as [e | b] eqn:Ha.
    - simpl. split.
      + intros H. injection H as ->. apply tilt_error in Ha. contradiction.
      + intros [H _]. discriminate.
    - destruct (Rgt_dec b (alpha_max (self g))) as [Hg | Hg]; simpl; split.
      + intros H. injection H as ->. tauto.
      + intros [H _]. injection H as ->. reflexivity.
      + discriminate.
      + intros [H Hgt]. injection H as ->. contradiction. }
  assert (Hback : forall g,
    snd (back_half way_1 way_2 g) = inl (InvalidValueAngle a) <->
    alpha_2 way_2 (back_moved way_1 g) = inr a /\ a > alpha_max (self g)).
  { intros g. rewrite back_half_eq.
    destruct (alpha_2 way_2 (back_moved way_1 g)) as [e | b] eqn:Ha.
    - simpl. split.
      + intros H. injection H as ->. apply tilt_error in Ha. contradiction.
      + intros [H _]. discriminate.
    - destruct (Rgt_dec b (alpha_max (self g))) as [Hg | Hg]; simpl; split.
      + intros H. injection H as ->. tauto.
      + intros [H _]. injection H as ->. reflexivity.
      + discriminate.
      + intros [H Hgt]. injection H as ->. contradiction. }
  split; [ apply Hfront | ].
  split; [ apply Hback | ].
  split.
  { rewrite body_eq.
    destruct (front_half way_1 f) as [f1 [e | u]] eqn:Hf; simpl.
    - split; [ tauto | ]. intros [H | [H _]]; [ exact H | discriminate ].
    - destruct u. destruct (front_half_ok _ _ _ _ Hf) as [-> _].
      destruct (back_half way_1 way_2 (front_done way_1 f)) as [f2 [e | u]] eqn:Hb;
        simpl.
      + split; [ intros H; right; tauto | ].
        intros [H | [_ H]]; [ discriminate | exact H ].
      + split.
        * unfold _check_position, raise, ret.
          repeat match goal with |- context [if ?d then _ else _] => destruct d end;
            simpl; discriminate.
        * intros [H | [_ H]]; discriminate. }
  split.
  { intros fuel Ht Hb. apply move_loop_raise; [ exact Ht | ].
    destruct (body way_1 way_2 f) as [f' r]. simpl in *. subst r. reflexivity. }
  split.
  { intros Ha. rewrite front_half_eq, Ha.
    destruct (Rgt_dec (alpha_max (self f)) (alpha_max (self f))) as [Hg | Hg];
      [ lra | reflexivity ]. }
  split.
  { intros Ha. rewrite back_half_eq, Ha.
    destruct (Rgt_dec (alpha_max (self f)) (alpha_max (self f))) as [Hg | Hg];
      [ lra | reflexivity ]. }
  reflexivity.
Qed.

(** The position check case by case, and its place in the loop body. *)
Lemma check_position_cases (way_1 way_2 : R) (f : Frame) :
  (snd (_check_position f) = inl InvalidValueError <->
     seat_mid (self f) > pos_1 (self f) \/ seat_mid (self f) < pos_2 (self f)) /\
  (snd (_check_position f) = inr tt <-> supported (self f)) /\
  (seat_mid (self f) = pos_2 (self f) /\ pos_2 (self f) <= pos_1 (self f) ->
     _check_position f = (f, inr tt)) /\
  (seat_mid (self f) = pos_1 (self f) /\ pos_2 (self f) <= pos_1 (self f) ->
     _check_position f = (f, inr tt)) /\
  fst (_check_position f) = f /\
  (forall f1 f2 u1 u2,
     front_half way_1 f = (f1, inr u1) ->
     back_half way_1 way_2 f1 = (f2, inr u2) ->
     body way_1 way_2 f = _check_position f2) /\
  (snd (body way_1 way_2 f) = inl InvalidValueError <->
     exists f1 f2,
       front_half way_1 f = (f1, inr tt) /\
       back_half way_1 way_2 f1 = (f2, inr tt) /\
       ~ supported (self f2)).
Proof.
  destruct (check_position_eq f) as [Hs Hu].
  assert (Hdec : supported (self f) \/ ~ supported (self f)).
  { unfold supported.
    destruct (Rle_dec (pos_2 (self f)) (seat_mid (self f)));
      destruct (Rle_dec (seat_mid (self f)) (pos_1 (self f))); tauto. }
  split.
  { destruct Hdec as [H | H].
    - rewrite (Hs H). simpl. unfold supported in H. split; [ discriminate | lra ].
    - rewrite (Hu H). simpl. unfold supported in H. split; [ lra | reflexivity ]. }
  split.
  { destruct Hdec as [H | H].
    - rewrite (Hs H). simpl. tauto.
    - rewrite (Hu H). simpl. split; [ discriminate | contradiction ]. }
  split.
  { intros [He Hle]. apply Hs. unfold supported. lra. }
  split.
  { intros [He Hle]. apply Hs. unfold supported. lra. }
  split.
  { destruct Hdec as [H | H]; [ rewrite (Hs H) | rewrite (Hu H) ]; reflexivity. }
  split.
  { intros f1 f2 u1 u2 Hf Hb. rewrite body_eq, Hf, Hb. reflexivity. }
  rewrite body_eq.
  destruct (front_half way_1 f) as [f1 [e | u1]] eqn:Hf.
  { simpl. split.
    - intros H. injection H as ->.
      rewrite front_half_eq in Hf.
      destruct (alpha_1 way_1 (front_moved way_1 f)) as [e | b] eqn:Ha.
      + injection Hf as _ ->. apply tilt_error in Ha. contradiction.
      + destruct (Rgt_dec b (alpha_max (self f))); discriminate.
    - intros (g1 & g2 & H & _). discriminate. }
  destruct u1.
  destruct (back_half way_1 way_2 f1) as [f2 [e | u2]] eqn:Hb.
  { simpl. split.
    - intros H. injection H as ->.
      rewrite back_half_eq in Hb.
      destruct (alpha_2 way_2 (back_moved way_1 f1)) as [e | b] eqn:Ha.
      + injection Hb as _ ->. apply tilt_error in Ha. contradiction.
      + destruct (Rgt_dec b (alpha_max (self f1))); discriminate.
    - intros (g1 & g2 & H1 & H2 & _). injection H1 as <-.
      rewrite Hb in H2. discriminate. }
  destruct u2.
  destruct (check_position_eq f2) as [Hs2 Hu2].
  assert (Hdec2 : supported (self f2) \/ ~ supported (self f2)).
  { unfold supported.
    destruct (Rle_dec (pos_2 (self f2)) (seat_mid (self f2)));
      destruct (Rle_dec (seat_mid (self f2)) (pos_1 (self f2))); tauto. }
  destruct Hdec2 as [H | H].
  - rewrite (Hs2 H). simpl. split; [ discriminate | ].
    intros (g1 & g2 & H1 & H2 & Hn). injection H1 as <-.
    rewrite Hb in H2. injection H2 as <-. contradiction.
  - rewrite (Hu2 H). simpl. split; [ | reflexivity ].
    intros _. exists f1, f2. tauto.
Qed.

(** C5: [_check_position] raises [InvalidValueError] exactly when the seat
    midpoint [pos_chair_1 - (pos_chair_1 - pos_chair_2) / 2] is strictly
    outside [[pos_2, pos_1]] (a midpoint equal to either end does not raise,
    and the check changes nothing); every loop iteration whose two
    half-steps complete runs the check on the frame they leave, so an
    iteration raises [InvalidValueError] exactly when both half-steps
    complete and the midpoint is then outside the interval. *)
Theorem check_position_iff (way_1 way_2 : R) (f : Frame) :
  (snd (_check_position f) = inl InvalidValueError <->
     pos_chair_1 (self f) - (pos_chair_1 (self f) - pos_chair_2 (self f)) / 2
       > pos_1 (self f) \/
     pos_chair_1 (self f) - (pos_chair_1 (self f) - pos_chair_2 (self f)) / 2
       < pos_2 (self f)) /\
  (snd (_check_position f) = inr tt <->
     pos_2 (self f)
       <= pos_chair_1 (self f) - (pos_chair_1 (self f) - pos_chair_2 (self f)) / 2
       <= pos_1 (self f)) /\
  (pos_chair_1 (self f) - (pos_chair_1 (self f) - pos_chair_2 (self f)) / 2
     = pos_2 (self f) /\ pos_2 (self f) <= pos_1 (self f) ->
     _check_position f = (f, inr tt)) /\
  (pos_chair_1 (self f) - (pos_chair_1 (self f) - pos_chair_2 (self f)) / 2
     = pos_1 (self f) /\ pos_2 (self f) <= pos_1 (self f) ->
     _check_position f = (f, inr tt)) /\
  fst (_check_position f) = f /\
  (forall f1 f2 u1 u2,
     front_half way_1 f = (f1, inr u1) ->
     back_half way_1 way_2 f1 = (f2, inr u2) ->
     body way_1 way_2 f = _check_position f2) /\
  (snd (body way_1 way_2 f) = inl InvalidValueError <->
     exists f1 f2,
       front_half way_1 f = (f1, inr tt) /\
       back_half way_1 way_2 f1 = (f2, inr tt) /\
       ~ (pos_2 (self f2)
            <= pos_chair_1 (self f2)
               - (pos_chair_1 (self f2) - pos_chair_2 (self f2)) / 2
            <= pos_1 (self f2))).
Proof.
  exact (check_position_cases way_1 way_2 f).
Qed.

(** C6: the back half-step first adds [way_1] (the front step) to
    [pos_chair_2], whatever happens next; its angle is the tilt expression at
    the offset [pos_chair_2 + way_1 - pos_2], with [pos_2] not yet advanced,
    and at [way_2]; [pos_2] is advanced by [way_2] exactly when the
    half-step is not interrupted by an exception, and is unchanged otherwise. *)
Theorem back_half_order (way_1 way_2 : R) (f : Frame) :
  pos_chair_2 (self (fst (back_half way_1 way_2 f))) =
    pos_chair_2 (self f) + way_1 /\
  alpha_2 way_2 (back_moved way_1 f) =
    tilt (length_leg (self f)) (length_chair (self f))
         (pos_chair_2 (self f) + way_1 - pos_2 (self f)) way_2 /\
  (snd (back_half way_1 way_2 f) = inr tt <->
     exists a, alpha_2 way_2 (back_moved way_1 f) = inr a /\
               ~ a > alpha_max (self f)) /\
  (snd (back_half way_1 way_2 f) = inr tt ->
     pos_2 (self (fst (back_half way_1 way_2 f))) = pos_2 (self f) + way_2) /\
  (forall e, snd (back_half way_1 way_2 f) = inl e ->
     pos_2 (self (fst (back_half way_1 way_2 f))) = pos_2 (self f)).
Proof.
  rewrite back_half_eq.
  split.
  { destruct (alpha_2 way_2 (back_moved way_1 f)) as [e | a]; [ reflexivity | ].
    destruct (Rgt_dec a (alpha_max (self f))); reflexivity. }
  split; [ reflexivity | ].
  destruct (alpha_2 way_2 (back_moved way_1 f)) as [e | a].
  { simpl. split; [ | split ].
    - split; [ discriminate | ]. intros (b & H & _). discriminate.
    - discriminate.
    - reflexivity. }
  destruct (Rgt_dec a (alpha_max (self f))) as [Hg | Hg]; simpl.
  - split; [ | split ].
    + split; [ discriminate | ]. intros (b & H & Hn). injection H as ->.
      contradiction.
    + discriminate.
    + reflexivity.
  - split; [ | split ].
    + split; [ | reflexivity ]. intros _. exists a. tauto.
    + reflexivity.
    + discriminate.
Qed.



(** C10: when the front half-step raises [InvalidValueAngle], the frame at
    the raise has [pos_1] already advanced by [way_1], while [total_way],
    [pos_chair_1], [pos_chair_2], [pos_2] and [timer] are as they were before
    the half-step; this is the frame [move] ends with. *)
Theorem front_angle_failure_frame (way_1 way_2 : R) (f : Frame) (a : R) :
  snd (front_half way_1 f) = inl (InvalidValueAngle a) ->
  pos_1 (self (fst (front_half way_1 f))) = pos_1 (self f) + way_1 /\
  total_way (fst (front_half way_1 f)) = total_way f /\
  pos_chair_1 (self (fst (front_half way_1 f))) = pos_chair_1 (self f) /\
  pos_chair_2 (self (fst (front_half way_1 f))) = pos_chair_2 (self f) /\
  pos_2 (self (fst (front_half way_1 f))) = pos_2 (self f) /\
  timer (fst (front_half way_1 f)) = timer f /\
  (forall fuel, timer f < time (self f) ->
     move_loop (S fuel) way_1 way_2 f =
       Some (fst (front_half way_1 f), inl (InvalidValueAngle a))).
Proof.
  intros H.
  assert (Hf : front_half way_1 f = (front_moved way_1 f, inl (InvalidValueAngle a))).
  { revert H. rewrite front_half_eq.
    destruct (alpha_1 way_1 (front_moved way_1 f)) as [e | b].
    - simpl. intros ->. reflexivity.
    - destruct (Rgt_dec b (alpha_max (self f))); simpl; [ | discriminate ].
      intros ->. reflexivity. }
  rewrite Hf. simpl. repeat split.
  intros fuel Ht. apply move_loop_raise; [ exact Ht | ].
  apply body_front_raise. exact Hf.
Qed.

Lemma front_angle_failure_frame_witness :
  pos_1 (self (fst (front_half 60 (mkFrame reference 0 0)))) = 80 + 60 /\
  total_way (fst (front_half 60 (mkFrame reference 0 0))) = 0 /\
  pos_chair_1 (self (fst (front_half 60 (mkFrame reference 0 0)))) = 80 /\
  pos_chair_2 (self (fst (front_half 60 (mkFrame reference 0 0)))) = 0 /\
  pos_2 (self (fst (front_half 60 (mkFrame reference 0 0)))) = 0 /\
  timer (fst (front_half 60 (mkFrame reference 0 0))) = 0 /\
  move 1 reference 60 (1 / 2) =
    Some (fst (front_half 60 (mkFrame reference 0 0)),
          inl (InvalidValueAngle (asin (3 / 4)))).
Proof.
  pose proof (front_angle_failure_frame 60 (1 / 2) (mkFrame reference 0 0)
                (asin (3 / 4))) as H.
  destruct H as (H1 & H2 & H3 & H4 & H5 & H6 & Hm).
  - rewrite (front_half_raises_angle 60 _ _ reference_front_60 reference_angle_bound).
    reflexivity.
  - repeat split; try assumption. apply (Hm 0%nat). simpl. lra.
Defined.

(** ** Claims about whole runs *)

(** C3: when [move] returns a distance, some number [n] of loop iterations
    (each with one front half-step) has completed, the timer is no longer
    below [time], and the distance is the sum of [n] increments of [way_1],
    that is [n * way_1]; [way_2] is no part of it. *)
Theorem returned_distance (fuel : nat) (c : Chair) (way_1 way_2 : R)
    (f' : Frame) (d : R) :
  move fuel c way_1 way_2 = Some (f', inr d) ->
  exists n,
    iterate n way_1 way_2 (mkFrame c 0 0) = Some f' /\
    time (self f') <= timer f' /\
    d = total_way f' /\
    d = sum_of_steps n way_1 /\
    d = INR n * way_1.
Proof.
  intros H. apply move_loop_returns in H.
  destruct H as (n & Hi & Hd & Hs & Hx). simpl in Hs.
  exists n. split; [ exact Hi | ].
  split; [ lra | ]. split; [ exact Hd | ].
  rewrite sum_of_steps_INR. split; lra.
Qed.

Lemma returned_distance_witness :
  exists n,
    iterate n (1 / 2) (3 / 5) (mkFrame (Chair_init 40 60 80 2 8 2 2 (1 / 10)) 0 0)
      = Some (iteration_done (1 / 2) (3 / 5)
                (mkFrame (Chair_init 40 60 80 2 8 2 2 (1 / 10)) 0 0)) /\
    time (Chair_init 40 60 80 2 8 2 2 (1 / 10)) <= 0 + (2 + 2) + (2 + 2) /\
    0 + 1 / 2 = 0 + 1 / 2 /\
    0 + 1 / 2 = sum_of_steps n (1 / 2) /\
    0 + 1 / 2 = INR n * (1 / 2).
Proof.
  exact (returned_distance 2 (Chair_init 40 60 80 2 8 2 2 (1 / 10)) (1 / 2) (3 / 5)
           _ _ short_run).
Defined.

(** C2: on the reference configuration (40, 60, 80, 2, 1000, 2, 2, 0.1),
    [move] with both steps [0.5] raises nothing: exactly 125 loop iterations
    complete, 125 being [time / (2 * (time_step + pause))], and the value
    returned is [0.5 * 125 = 62.5]. *)
Theorem reference_equal_half_steps :
  exists f',
    iterate 125 (1 / 2) (1 / 2) (mkFrame reference 0 0) = Some f' /\
    (forall fuel, (125 < fuel)%nat ->
       move fuel reference (1 / 2) (1 / 2) = Some (f', inr (125 / 2))) /\
    125 / 2 = 1 / 2 * INR 125 /\
    INR 125 = time reference / (2 * (time_step reference + pause reference)).
Proof.
  destruct reference_half_angle as (a & Ha & _ & Hle).
  destruct (uniform_move_loop (1 / 2) a 125 (mkFrame reference 0 0))
    as (fn & Hi & Hw & Hm).
  - apply aligned_init. lra.
  - exact Ha.
  - exact Hle.
  - intros k Hk. simpl.
    assert (Hk' : INR k <= INR 124) by (apply le_INR; lia).
    assert (E : INR 124 = 124) by (rewrite INR_IZR_INZ; reflexivity).
    lra.
  - rewrite INR_125. simpl. lra.
  - assert (Ew : total_way fn = 125 / 2).
    { rewrite Hw, INR_125. simpl. lra. }
    exists fn. split; [ exact Hi | ].
    split; [ | split ].
    + intros fuel Hfuel. unfold move. rewrite (Hm fuel Hfuel), Ew. reflexivity.
    + rewrite INR_125. lra.
    + rewrite INR_125. simpl. lra.
Qed.

(** ** More about the loop: positions, iteration count, where it can fail *)

(** The frame after [n] completed iterations, attribute by attribute. *)
Lemma iterate_fields (way_1 way_2 : R) (n : nat) :
  forall f f' : Frame,
    iterate n way_1 way_2 f = Some f' ->
    pos_1 (self f') = pos_1 (self f) + INR n * way_1 /\
    pos_chair_1 (self f') = pos_chair_1 (self f) + INR n * way_1 /\
    pos_chair_2 (self f') = pos_chair_2 (self f) + INR n * way_1 /\
    pos_2 (self f') = pos_2 (self f) + INR n * way_2 /\
    total_way f' = total_way f + INR n * way_1 /\
    timer f' = timer f + INR n * (2 * (time_step (self f) + pause (self f))) /\
    same_config (self f) (self f').
Proof.
  induction n as [ | n IH]; intros f f' H.
  - simpl in H. injection H as <-. simpl.
    repeat split; try ring. 
  - simpl in H.
    destruct (body way_1 way_2 f) as [f1 [e | u]] eqn:Hb; [ discriminate | ].
    apply body_ok in Hb. subst f1.
    destruct (IH _ _ H) as (H1 & H2 & H3 & H4 & H5 & H6 & H7).
    rewrite H1, H2, H3, H4, H5, H6, S_INR. simpl.
    repeat split; try ring;
      destruct H7 as (A1 & A2 & A3 & A4 & A5 & A6); assumption.
Qed.

(** A normal return comes after [n] completed iterations, the timer being
    below [time] before each of them and not after the last. *)
Lemma move_loop_count (way_1 way_2 : R) (fuel : nat) :
  forall (f f' : Frame) (d : R),
    move_loop fuel way_1 way_2 f = Some (f', inr d) ->
    exists n,
      iterate n way_1 way_2 f = Some f' /\
      d = total_way f' /\
      (forall k, (k < n)%nat ->
         timer f + INR k * (2 * (time_step (self f) + pause (self f))) < time (self f)) /\
      time (self f) <= timer f + INR n * (2 * (time_step (self f) + pause (self f))).
Proof.
  induction fuel as [ | fuel IH]; intros f f' d H; [ discriminate | ].
  simpl in H.
  destruct (Rlt_dec (timer f) (time (self f))) as [Ht | Ht].
  - destruct (body way_1 way_2 f) as [f1 [e | u]] eqn:Hb; [ discriminate | ].
    destruct (IH _ _ _ H) as (n & Hi & Hd & Hlt & Hge).
    destruct (body_ok_fields _ _ _ _ _ Hb) as (Et & _ & E1 & E2 & E3).
    rewrite Et, E1, E2, E3 in *.
    exists (S n). split; [ simpl; rewrite Hb; exact Hi | ].
    split; [ exact Hd | ]. split.
    + intros k Hk. destruct k as [ | k].
      * simpl. lra.
      * specialize (Hlt k ltac:(lia)). rewrite S_INR. lra.
    + rewrite S_INR. lra.
  - injection H as <- <-. exists 0%nat. simpl.
    split; [ reflexivity | ]. split; [ reflexivity | ].
    split; [ intros k Hk; lia | lra ].
Qed.

(** An exception leaves the loop from the iteration that follows some [n]
    completed ones. *)
Lemma move_loop_raise_inv (way_1 way_2 : R) (fuel : nat) :
  forall (f f' : Frame) (e : exn),
    move_loop fuel way_1 way_2 f = Some (f', inl e) ->
    exists n fn,
      iterate n way_1 way_2 f = Some fn /\
      timer fn < time (self fn) /\
      body way_1 way_2 fn = (f', inl e).
Proof.
  induction fuel as [ | fuel IH]; intros f f' e H; [ discriminate | ].
  simpl in H.
  destruct (Rlt_dec (timer f) (time (self f))) as [Ht | Ht]; [ | discriminate ].
  destruct (body way_1 way_2 f) as [f1 [e1 | u]] eqn:Hb.
  - injection H as <- <-. exists 0%nat, f. simpl. tauto.
  - destruct (IH _ _ _ H) as (n & fn & Hi & Hlt & Hbn).
    exists (S n), fn. split; [ simpl; rewrite Hb; exact Hi | tauto ].
Qed.

Lemma short_run_equal :
  move 2 short_chair (1 / 2) (1 / 2) =
    Some (iteration_done (1 / 2) (1 / 2) (mkFrame short_chair 0 0), inr (0 + 1 / 2)).
Proof.
  destruct reference_half_angle as (a & Ha & _ & Hle).
  destruct (uniform_body (1 / 2) a (mkFrame short_chair 0 0)) as [Hb _].
  - apply aligned_init. lra.
  - exact Ha.
  - exact Hle.
  - assert (Ht : timer (mkFrame short_chair 0 0) < time (self (mkFrame short_chair 0 0)))
      by (simpl; lra).
    unfold move. rewrite (move_loop_next 1 _ _ _ _ _ Ht Hb).
    apply move_loop_exit. simpl. lra.
Qed.

(** An iteration that ends in [InvalidValueError] has completed both
    half-steps. *)
Lemma body_unstable_inv (way_1 way_2 : R) (f f' : Frame) :
  body way_1 way_2 f = (f', inl InvalidValueError) ->
  f' = iteration_done way_1 way_2 f /\ ~ supported (self f').
Proof.
  rewrite body_eq.
  destruct (front_half way_1 f) as [f1 [e | u1]] eqn:Hf.
  { intros H. injection H as <- ->. rewrite front_half_eq in Hf.
    destruct (alpha_1 way_1 (front_moved way_1 f)) as [e | b] eqn:Ha.
    - injection Hf as _ ->. apply tilt_error in Ha. contradiction.
    - destruct (Rgt_dec b (alpha_max (self f))); discriminate. }
  apply front_half_ok in Hf. destruct Hf as [-> _].
  destruct (back_half way_1 way_2 (front_done way_1 f)) as [f2 [e | u2]] eqn:Hb.
  { intros H. injection H as <- ->. rewrite back_half_eq in Hb.
    destruct (alpha_2 way_2 (back_moved way_1 (front_done way_1 f))) as [e | b] eqn:Ha.
    - injection Hb as _ ->. apply tilt_error in Ha. contradiction.
    - destruct (Rgt_dec b (alpha_max (self (front_done way_1 f)))); discriminate. }
  apply back_half_ok in Hb. destruct Hb as [-> _].
  fold (iteration_done way_1 way_2 f).
  destruct (check_position_eq (iteration_done way_1 way_2 f)) as [Hs Hu].
  intros H.
  assert (Hn : ~ supported (self (iteration_done way_1 way_2 f))).
  { intros Hsup. rewrite (Hs Hsup) in H. discriminate. }
  rewrite (Hu Hn) in H. injection H as <-. split; [ reflexivity | exact Hn ].
Qed.

(** X3: on a freshly constructed chair with a nonnegative seat length,
    [move] ends with [InvalidValueError] only because the seat midpoint has
    fallen behind the back legs: at the raise the midpoint is below [pos_2],
    it is never above [pos_1], and the back step is larger than the front
    step. *)
Theorem unstable_only_behind (lw L C ww T p ts mu w1 w2 : R) (fuel : nat)
    (f' : Frame) :
  0 <= C ->
  move fuel (Chair_init lw L C ww T p ts mu) w1 w2 = Some (f', inl InvalidValueError) ->
  seat_mid (self f') < pos_2 (self f') /\
  seat_mid (self f') <= pos_1 (self f') /\
  w1 < w2.
Proof.
  intros HC H. apply move_loop_raise_inv in H.
  destruct H as (n & fn & Hi & _ & Hb).
  apply body_unstable_inv in Hb. destruct Hb as [-> Hn].
  destruct (iterate_fields _ _ _ _ _ Hi) as (E1 & E2 & E3 & E4 & _).
  simpl in E1, E2, E3, E4.
  unfold supported, seat_mid in *. simpl in *.
  rewrite E1, E2, E3, E4 in *.
  pose proof (pos_INR n) as Hpos.
  assert (Hmid : (INR n + 1) * w2 > C / 2 + (INR n + 1) * w1) by lra.
  split; [ lra | ]. split; [ lra | ]. nra.
Qed.

Lemma rough_front_60 :
  alpha_1 60 (front_moved 60 (mkFrame rough_chair 0 0)) = inr (asin (3 / 4)).
Proof.
  exact reference_front_60.
Qed.

Lemma rough_angle_bound : ~ asin (3 / 4) > alpha_max rough_chair.
Proof.
  apply Rle_not_gt. simpl. unfold math_atan. apply asin_le_atan; lra.
Qed.

(** The rough chair with a front step of the leg length and a back step of
    101: both angles are [asin (3 / 4)], and the back legs end at 101, past
    the seat midpoint at 100. *)
Lemma rough_run_unstable :
  move 1 rough_chair 60 101 =
    Some (iteration_done 60 101 (mkFrame rough_chair 0 0), inl InvalidValueError).
Proof.
  set (f := mkFrame rough_chair 0 0).
  assert (H2 : alpha_2 101 (back_moved 60 (front_done 60 f)) = inr (asin (3 / 4))).
  { unfold alpha_2. simpl.
    assert (Ex : Rabs (0 + 60 - 0) / 60 = 1).
    { rewrite Rabs_pos_eq by lra. field. }
    assert (Ey : (60 - math_tan (acos (Rabs (0 + 60 - 0) / 60)) * 101) / 80
                 = 3 / 4).
    { rewrite Ex, math_tan_acos by lra. rewrite acos_1, tan_0. field. }
    rewrite tilt_value; [ rewrite Ey; reflexivity | lra | lra | lra | ].
    rewrite Ey. lra. }
  assert (Hb : body 60 101 f = (iteration_done 60 101 f, inl InvalidValueError)).
  { rewrite body_eq, front_half_eq. unfold f at 1. rewrite rough_front_60. fold f.
    destruct (Rgt_dec (asin (3 / 4)) (alpha_max (self f))) as [Hg | _];
      [ exfalso; exact (rough_angle_bound Hg) | ].
    rewrite back_half_eq, H2.
    destruct (Rgt_dec (asin (3 / 4)) (alpha_max (self (front_done 60 f))))
      as [Hg | _]; [ exfalso; exact (rough_angle_bound Hg) | ].
    apply check_position_eq. unfold supported, seat_mid. simpl. lra. }
  unfold move. fold f. apply move_loop_raise; [ simpl; lra | exact Hb ].
Qed.

Lemma unstable_only_behind_witness :
  seat_mid (self (iteration_done 60 101 (mkFrame rough_chair 0 0)))
    < pos_2 (self (iteration_done 60 101 (mkFrame rough_chair 0 0))) /\
  seat_mid (self (iteration_done 60 101 (mkFrame rough_chair 0 0)))
    <= pos_1 (self (iteration_done 60 101 (mkFrame rough_chair 0 0))) /\
  60 < 101.
Proof.
  assert (HC : 0 <= 80) by lra.
  exact (unstable_only_behind 40 60 80 2 1000 2 2 4 60 101 1 _ HC rough_run_unstable).
Defined.

(** One iteration of the short chair with steps [1 / 2] and [3 / 5]. *)
Lemma short_iteration :
  iterate 1 (1 / 2) (3 / 5) (mkFrame short_chair 0 0)
    = Some (iteration_done (1 / 2) (3 / 5) (mkFrame short_chair 0 0)) /\
  ~ timer (iteration_done (1 / 2) (3 / 5) (mkFrame short_chair 0 0))
      < time (self (iteration_done (1 / 2) (3 / 5) (mkFrame short_chair 0 0))).
Proof.
  pose proof short_run as H. unfold move in H.
  apply move_loop_returns in H. destruct H as (n & Hi & _ & _ & Hge).
  destruct n as [ | [ | n]].
  - exfalso. simpl in Hi. inversion Hi; lra.
  - split; [ exact Hi | exact Hge ].
  - exfalso. apply iterate_fields in Hi.
    destruct Hi as (_ & _ & _ & _ & _ & Et & _).
    rewrite !S_INR in Et. simpl in Et. pose proof (pos_INR n). lra.
Qed.

(** ** Where the loop leaves *)

(** When some [n] iterations pass and the timer is then no longer below
    [time], the loop leaves at the first such loop head, whatever the fuel
    beyond it. *)
Lemma iterate_exit (way_1 way_2 : R) (n : nat) :
  forall f fn : Frame,
    iterate n way_1 way_2 f = Some fn ->
    ~ timer fn < time (self fn) ->
    exists m fm,
      (m <= n)%nat /\
      iterate m way_1 way_2 f = Some fm /\
      ~ timer fm < time (self fm) /\
      (forall k fk, (k < m)%nat -> iterate k way_1 way_2 f = Some fk ->
                    timer fk < time (self fk)) /\
      forall fuel, (m < fuel)%nat ->
        move_loop fuel way_1 way_2 f = Some (fm, inr (total_way fm)).
Proof.
  induction n as [ | n IH]; intros f fn Hi Hge.
  - simpl in Hi. injection Hi as <-. exists 0%nat, f.
    split; [ lia | ]. split; [ reflexivity | ]. split; [ exact Hge | ].
    split; [ intros k fk Hk; lia | ].
    intros fuel Hfuel. destruct fuel as [ | fuel]; [ lia | ].
    apply move_loop_exit. exact Hge.
  - destruct (Rlt_dec (timer f) (time (self f))) as [Ht | Ht].
    + simpl in Hi.
      destruct (body way_1 way_2 f) as [f1 [e | u]] eqn:Hb; [ discriminate | ].
      destruct (IH f1 fn Hi Hge) as (m & fm & Hm & Him & Hgm & Hmin & Hloop).
      exists (S m), fm.
      split; [ lia | ]. split; [ simpl; rewrite Hb; exact Him | ].
      split; [ exact Hgm | ].
      split.
      * intros k fk Hk Hik. destruct k as [ | k].
        -- simpl in Hik. injection Hik as <-. exact Ht.
        -- simpl in Hik. rewrite Hb in Hik. apply (Hmin k fk); [ lia | exact Hik ].
      * intros fuel Hfuel. destruct fuel as [ | fuel]; [ lia | ].
        rewrite (move_loop_next _ _ _ _ _ _ Ht Hb). apply Hloop. lia.
    + exists 0%nat, f.
      split; [ lia | ]. split; [ reflexivity | ]. split; [ exact Ht | ].
      split; [ intros k fk Hk; lia | ].
      intros fuel Hfuel. destruct fuel as [ | fuel]; [ lia | ].
      apply move_loop_exit. exact Ht.
Qed.

(** X21: [move] returns at the first loop head whose timer is no longer
    below [time].  When [n] iterations pass one after the other and the
    timer is then not below [time], there is a least number [m <= n] of
    iterations after which it is not, and for every fuel above [m] [move]
    returns the distance accumulated over these [m] iterations. *)
Theorem move_leaves_at_timer (c : Chair) (w1 w2 : R) (n : nat) (fn : Frame) :
  iterate n w1 w2 (mkFrame c 0 0) = Some fn ->
  ~ timer fn < time (self fn) ->
  exists m fm,
    (m <= n)%nat /\
    iterate m w1 w2 (mkFrame c 0 0) = Some fm /\
    ~ timer fm < time (self fm) /\
    (forall k fk, (k < m)%nat -> iterate k w1 w2 (mkFrame c 0 0) = Some fk ->
                  timer fk < time (self fk)) /\
    forall fuel, (m < fuel)%nat ->
      move fuel c w1 w2 = Some (fm, inr (total_way fm)).
Proof.
  intros Hi Hge. exact (iterate_exit w1 w2 n (mkFrame c 0 0) fn Hi Hge).
Qed.

Lemma move_leaves_at_timer_witness :
  exists m fm,
    (m <= 1)%nat /\
    iterate m (1 / 2) (3 / 5) (mkFrame short_chair 0 0) = Some fm /\
    ~ timer fm < time (self fm) /\
    (forall k fk, (k < m)%nat ->
       iterate k (1 / 2) (3 / 5) (mkFrame short_chair 0 0) = Some fk ->
       timer fk < time (self fk)) /\
    forall fuel, (m < fuel)%nat ->
      move fuel short_chair (1 / 2) (3 / 5) = Some (fm, inr (total_way fm)).
Proof.
  destruct (short_iteration) as (Hi & Hge).
  exact (move_leaves_at_timer short_chair (1 / 2) (3 / 5) 1 _ Hi Hge).
Defined.

(** ** Runs with both steps zero *)










(** ** The front angle as a function of the front step *)











(** ** Runs that return: iterations and positions *)

(** X1: the number of iterations of a normal return depends on the chair
    only, not on the steps: two calls of [move] on the same chair that both
    return have completed the same number of iterations, and in both the
    timer is then no longer below [time]. *)
Theorem iteration_count (c : Chair) (w1 w2 v1 v2 : R) (fuel fuel' : nat)
    (f1 f2 : Frame) (d1 d2 : R) :
  move fuel c w1 w2 = Some (f1, inr d1) ->
  move fuel' c v1 v2 = Some (f2, inr d2) ->
  exists n,
    iterate n w1 w2 (mkFrame c 0 0) = Some f1 /\
    iterate n v1 v2 (mkFrame c 0 0) = Some f2 /\
    ~ timer f1 < time c /\
    ~ timer f2 < time c.
Proof.
  intros H1 H2.
  apply move_loop_count in H1. destruct H1 as (n & Hi & Hd & Hlt & Hge).
  apply move_loop_count in H2. destruct H2 as (m & Hi' & Hd' & Hlt' & Hge').
  simpl in Hlt, Hge, Hlt', Hge'.
  assert (E : m = n).
  { destruct (Nat.lt_trichotomy m n) as [Hmn | [Hmn | Hmn]]; [ | exact Hmn | ].
    - specialize (Hlt m Hmn). lra.
    - specialize (Hlt' n Hmn). lra. }
  subst m. exists n.
  destruct (iterate_fields _ _ _ _ _ Hi) as (_ & _ & _ & _ & _ & Et & _).
  destruct (iterate_fields _ _ _ _ _ Hi') as (_ & _ & _ & _ & _ & Et' & _).
  simpl in Et, Et'.
  split; [ exact Hi | ]. split; [ exact Hi' | ].
  split; lra.
Qed.

Lemma iteration_count_witness :
  exists n,
    iterate n (1 / 2) (3 / 5) (mkFrame short_chair 0 0) =
      Some (iteration_done (1 / 2) (3 / 5) (mkFrame short_chair 0 0)) /\
    iterate n (1 / 2) (1 / 2) (mkFrame short_chair 0 0) =
      Some (iteration_done (1 / 2) (1 / 2) (mkFrame short_chair 0 0)) /\
    ~ timer (iteration_done (1 / 2) (3 / 5) (mkFrame short_chair 0 0))
        < time short_chair /\
    ~ timer (iteration_done (1 / 2) (1 / 2) (mkFrame short_chair 0 0))
        < time short_chair.
Proof.
  exact (iteration_count short_chair (1 / 2) (3 / 5) (1 / 2) (1 / 2) 2 2 _ _ _ _
           short_run short_run_equal).
Defined.

(** X2: when [move] returns a distance [d] on a freshly constructed chair,
    the front seat edge stands over the front legs, as at the start; the
    back seat edge, which started at [0], stands at [d]; and the attributes
    that describe the chair are as the constructor set them. *)
Theorem move_final_positions (lw L C ww T p ts mu w1 w2 : R) (fuel : nat)
    (f' : Frame) (d : R) :
  move fuel (Chair_init lw L C ww T p ts mu) w1 w2 = Some (f', inr d) ->
  pos_chair_1 (self f') = pos_1 (self f') /\
  pos_chair_2 (self f') = d /\
  same_config (Chair_init lw L C ww T p ts mu) (self f').
Proof.
  intros H. apply move_loop_count in H. destruct H as (n & Hi & Hd & _).
  destruct (iterate_fields _ _ _ _ _ Hi) as (E1 & E2 & E3 & _ & E5 & _ & Hc).
  simpl in E1, E2, E3, E5.
  split; [ rewrite E1, E2; reflexivity | ].
  split; [ rewrite E3, Hd, E5; reflexivity | exact Hc ].
Qed.

Lemma move_final_positions_witness :
  pos_chair_1 (self (iteration_done (1 / 2) (3 / 5) (mkFrame short_chair 0 0)))
    = pos_1 (self (iteration_done (1 / 2) (3 / 5) (mkFrame short_chair 0 0))) /\
  pos_chair_2 (self (iteration_done (1 / 2) (3 / 5) (mkFrame short_chair 0 0)))
    = 0 + 1 / 2 /\
  same_config (Chair_init 40 60 80 2 8 2 2 (1 / 10))
    (self (iteration_done (1 / 2) (3 / 5) (mkFrame short_chair 0 0))).
Proof.
  exact (move_final_positions 40 60 80 2 8 2 2 (1 / 10) (1 / 2) (3 / 5) 2 _ _ short_run).
Defined.

(** ** The reference chair *)

Lemma reference_half_run :
  exists fn, move 126 reference (1 / 2) (1 / 2) = Some (fn, inr (125 / 2)).
Proof.
  destruct reference_half_angle as (a & Ha & _ & Hle).
  destruct (uniform_move_loop (1 / 2) a 125 (mkFrame reference 0 0))
    as (fn & _ & Hw & Hm).
  - apply aligned_init. lra.
  - exact Ha.
  - exact Hle.
  - intros k Hk. simpl.
    assert (Hk' : INR k <= INR 124) by (apply le_INR; lia).
    assert (E : INR 124 = 124) by (rewrite INR_IZR_INZ; reflexivity).
    lra.
  - rewrite INR_125. simpl. lra.
  - exists fn. unfold move. rewrite (Hm 126%nat) by lia.
    rewrite Hw, INR_125. simpl. do 3 f_equal. lra.
Qed.

(** The reference chair: a call that returns has run 125 iterations. *)
Lemma reference_iterations (w1 w2 : R) (fuel : nat) (f' : Frame) (d : R) :
  move fuel reference w1 w2 = Some (f', inr d) ->
  iterate 125 w1 w2 (mkFrame reference 0 0) = Some f' /\
  timer f' = 1000 /\
  d = 125 * w1.
Proof.
  intros H.
  apply move_loop_count in H. destruct H as (n & Hi & Hd & Hlt & Hge).
  simpl in Hlt, Hge.
  assert (En : n = 125%nat).
  { assert (H1 : (n < 126)%nat).
    { destruct (Nat.lt_ge_cases n 126) as [Hl | Hg]; [ exact Hl | exfalso ].
      specialize (Hlt 125%nat ltac:(lia)). rewrite INR_125 in Hlt. lra. }
    assert (H2 : (125 <= n)%nat).
    { apply INR_le. rewrite INR_125. lra. }
    lia. }
  subst n.
  destruct (iterate_fields _ _ _ _ _ Hi) as (_ & _ & _ & _ & Ew & Et & _).
  rewrite INR_125 in Ew, Et. simpl in Ew, Et.
  split; [ exact Hi | ]. split; lra.
Qed.




(** ** The result store *)

Lemma dict_get_set_same (k : string) (v : json) (d : list (string * json)) :
  dict_get k (dict_set k v d) = Some v.
Proof.
  induction d as [ | [k' v'] d IH]; simpl.
  - rewrite String.eqb_refl. reflexivity.
  - destruct (String.eqb k' k) eqn:E; simpl.
    + rewrite String.eqb_refl. reflexivity.
    + rewrite E. exact IH.
Qed.

Lemma dict_get_set_other (k k0 : string) (v : json) (d : list (string * json)) :
  k0 <> k -> dict_get k0 (dict_set k v d) = dict_get k0 d.
Proof.
  intros Hne. induction d as [ | [k' v'] d IH]; simpl.
  - destruct (String.eqb k k0) eqn:E; [ | reflexivity ].
    apply String.eqb_eq in E. congruence.
  - destruct (String.eqb k' k) eqn:E; simpl.
    + apply String.eqb_eq in E. subst k'.
      destruct (String.eqb k k0) eqn:E0; [ | reflexivity ].
      apply String.eqb_eq in E0. congruence.
    + destruct (String.eqb k' k0); [ reflexivity | exact IH ].
Qed.


Lemma dict_set_twice (k : string) (v1 v2 : json) (d : list (string * json)) :
  dict_set k v2 (dict_set k v1 d) = dict_set k v2 d.
Proof.
  induction d as [ | [k' v'] d IH]; simpl.
  - rewrite String.eqb_refl. reflexivity.
  - destruct (String.eqb k' k) eqn:E; simpl.
    + rewrite String.eqb_refl. reflexivity.
    + rewrite E, IH. reflexivity.
Qed.

(** Lone surrogates in an object, member by member. *)
Lemma object_surrogate_cons (k : string) (v : json) (d : list (string * json)) :
  json_has_surrogate (JObject ((k, v) :: d)) =
    orb (orb (has_surrogate k) (json_has_surrogate v))
        (json_has_surrogate (JObject d)).
Proof.
  reflexivity.
Qed.

(** An object that can be written after [d[k] = v]: [k] and [v] hold no
    lone surrogate. *)
Lemma dict_set_surrogate_new (k : string) (v : json) (d : list (string * json)) :
  json_has_surrogate (JObject (dict_set k v d)) = false ->
  has_surrogate k = false /\ json_has_surrogate v = false.
Proof.
  induction d as [ | [k' v'] d IH]; simpl dict_set.
  - rewrite object_surrogate_cons. intros H.
    apply Bool.orb_false_iff in H. destruct H as [H _].
    apply Bool.orb_false_iff in H. exact H.
  - destruct (String.eqb k' k); rewrite object_surrogate_cons; intros H;
      apply Bool.orb_false_iff in H; destruct H as [H H'].
    + apply Bool.orb_false_iff in H. exact H.
    + apply IH. exact H'.
Qed.

Lemma dict_set_surrogate_keep (k : string) (v : json) (d : list (string * json)) :
  json_has_surrogate (JObject d) = false ->
  has_surrogate k = false -> json_has_surrogate v = false ->
  json_has_surrogate (JObject (dict_set k v d)) = false.
Proof.
  intros Hd Hk Hv. induction d as [ | [k' v'] d IH]; simpl dict_set.
  - rewrite object_surrogate_cons, Hk, Hv. reflexivity.
  - rewrite object_surrogate_cons in Hd.
    apply Bool.orb_false_iff in Hd. destruct Hd as [H H'].
    destruct (String.eqb k' k); rewrite object_surrogate_cons.
    + rewrite Hk, Hv, H'. reflexivity.
    + rewrite H, (IH H'). reflexivity.
Qed.

Lemma write_file_same (path : string) (c : content) (fs : files) :
  write_file path c fs path = Some c.
Proof.
  unfold write_file. rewrite String.eqb_refl. reflexivity.
Qed.

Lemma write_file_other (path p : string) (c : content) (fs : files) :
  p <> path -> write_file path c fs p = fs p.
Proof.
  intros Hne. unfold write_file.
  destruct (String.eqb p path) eqn:E; [ | reflexivity ].
  apply String.eqb_eq in E. contradiction.
Qed.

Lemma grades_step (fs : files) :
  grades_ensured fs "result.json"%string = fs "result.json"%string /\
  grades_ensured fs "grades.json"%string =
    match fs "grades.json"%string with
    | Some c => Some c
    | None => Some (Json (JObject []))
    end /\
  forall p, p <> "grades.json"%string -> grades_ensured fs p = fs p.
Proof.
  unfold grades_ensured. destruct (fs "grades.json"%string) as [c | ] eqn:E.
  - split; [ reflexivity | ]. split; [ exact E | reflexivity ].
  - split; [ reflexivity | ]. split; [ apply write_file_same | ].
    intros p Hp. apply write_file_other. exact Hp.
Qed.

Lemma grades_ensured_twice (fs : files) (c : content) :
  grades_ensured (write_file "result.json"%string c (grades_ensured fs))
    = write_file "result.json"%string c (grades_ensured fs).
Proof.
  destruct (grades_step fs) as (_ & E2 & _).
  unfold grades_ensured at 1.
  rewrite write_file_other by discriminate. rewrite E2.
  destruct (fs "grades.json"%string); reflexivity.
Qed.

(** [res_to_json], by what [result.json] holds. *)
Lemma res_to_json_cases (r : Result) (fs : files) :
  res_to_json r fs =
  match fs "result.json"%string with
  | None => (grades_ensured fs, inl FileNotFoundError)
  | Some NotUtf8 => (grades_ensured fs, inl UnicodeDecodeError)
  | Some NotJson => (grades_ensured fs, inl JSONDecodeError)
  | Some (Json (JObject d)) =>
      dump_result (dict_set (name r) (result r) d) (grades_ensured fs)
  | Some (Json _) => (grades_ensured fs, inl AttributeError)
  end.
Proof.
  unfold res_to_json. fold (grades_ensured fs).
  destruct (grades_step fs) as (E & _). rewrite E. reflexivity.
Qed.

Lemma dump_result_cases (d : list (string * json)) (fs : files) :
  (json_has_surrogate (JObject d) = false ->
   dump_result d fs = (write_file "result.json"%string (Json (JObject d)) fs, inr tt)) /\
  (json_has_surrogate (JObject d) = true ->
   dump_result d fs = (write_file "result.json"%string NotJson fs,
                       inl UnicodeEncodeError)).
Proof.
  unfold dump_result.
  destruct (json_has_surrogate (JObject d)); split; intros H;
    first [ reflexivity | discriminate ].
Qed.

(** A call that completes found an object and could write the new one. *)
Lemma res_to_json_completes (r : Result) (fs : files) :
  snd (res_to_json r fs) = inr tt ->
  exists d,
    fs "result.json"%string = Some (Json (JObject d)) /\
    json_has_surrogate (JObject (dict_set (name r) (result r) d)) = false /\
    res_to_json r fs =
      (write_file "result.json"%string
         (Json (JObject (dict_set (name r) (result r) d))) (grades_ensured fs),
       inr tt).
Proof.
  rewrite res_to_json_cases.
  destruct (fs "result.json"%string) as [[j | | ] | ]; try discriminate.
  destruct j; try discriminate.
  intros H. exists members. split; [ reflexivity | ].
  destruct (dump_result_cases (dict_set (name r) (result r) members)
              (grades_ensured fs)) as [Hok Hbad].
  destruct (json_has_surrogate (JObject (dict_set (name r) (result r) members)))
    eqn:E.
  - rewrite (Hbad eq_refl) in H. discriminate.
  - split; [ reflexivity | exact (Hok eq_refl) ].
Qed.

(** X8: when [result.json] does not exist, [res_to_json] raises
    [FileNotFoundError] and saves nothing: [result.json] is still missing
    afterwards, while [grades.json] now exists (created as the empty object
    if it was missing) and no other file has changed. *)
Theorem res_to_json_missing_file (r : Result) (fs : files) :
  fs "result.json"%string = None ->
  snd (res_to_json r fs) = inl FileNotFoundError /\
  fst (res_to_json r fs) "result.json"%string = None /\
  fst (res_to_json r fs) "grades.json"%string <> None /\
  (fs "grades.json"%string = None ->
   fst (res_to_json r fs) "grades.json"%string = Some (Json (JObject []))) /\
  forall p, p <> "grades.json"%string -> fst (res_to_json r fs) p = fs p.
Proof.
  intros Hmiss. rewrite res_to_json_cases, Hmiss. simpl.
  destruct (grades_step fs) as (E1 & E2 & E3).
  split; [ reflexivity | ]. split; [ rewrite E1; exact Hmiss | ].
  split; [ rewrite E2; destruct (fs "grades.json"%string); discriminate | ].
  split; [ intros Hg; rewrite E2, Hg; reflexivity | exact E3 ].
Qed.

Lemma res_to_json_missing_file_witness :
  snd (res_to_json (mkResult (JInt 5) "ann") no_files) = inl FileNotFoundError /\
  fst (res_to_json (mkResult (JInt 5) "ann") no_files) "result.json"%string = None /\
  fst (res_to_json (mkResult (JInt 5) "ann") no_files) "grades.json"%string <> None /\
  (no_files "grades.json"%string = None ->
   fst (res_to_json (mkResult (JInt 5) "ann") no_files) "grades.json"%string
     = Some (Json (JObject []))) /\
  forall p, p <> "grades.json"%string ->
    fst (res_to_json (mkResult (JInt 5) "ann") no_files) p = no_files p.
Proof.
  apply (res_to_json_missing_file (mkResult (JInt 5) "ann") no_files).
  reflexivity.
Defined.




(** Writing [result.json] over a store in which it was just written. *)
Lemma dump_result_overwrite (d : list (string * json)) (c : content) (fs : files) :
  snd (dump_result d (write_file "result.json"%string c fs)) = snd (dump_result d fs) /\
  forall p,
    fst (dump_result d (write_file "result.json"%string c fs)) p
      = fst (dump_result d fs) p.
Proof.
  unfold dump_result.
  destruct (json_has_surrogate (JObject d)); cbn [fst snd];
    (split; [ reflexivity | ]); intros p; unfold write_file;
    destruct (String.eqb p "result.json"); reflexivity.
Qed.

(** X11: after a call that completed, saving again under the same name is
    saving the last result only: the second call ends as it would have
    ended alone, and leaves the store that it alone would have left. *)
Theorem res_to_json_last_wins (r1 r2 : Result) (fs : files) :
  name r1 = name r2 ->
  snd (res_to_json r1 fs) = inr tt ->
  snd (res_to_json r2 (fst (res_to_json r1 fs))) = snd (res_to_json r2 fs) /\
  forall p, fst (res_to_json r2 (fst (res_to_json r1 fs))) p = fst (res_to_json r2 fs) p.
Proof.
  intros Hn H1.
  destruct (res_to_json_completes r1 fs H1) as (d & Hobj & _ & E1).
  rewrite E1. cbn [fst].
  rewrite (res_to_json_cases r2 fs), Hobj.
  rewrite res_to_json_cases, write_file_same, grades_ensured_twice.
  rewrite Hn, dict_set_twice.
  apply dump_result_overwrite.
Qed.

Lemma res_to_json_last_wins_witness :
  snd (res_to_json (mkResult (JInt 5) "bob")
         (fst (res_to_json (mkResult (JInt 4) "bob") bob_store)))
    = snd (res_to_json (mkResult (JInt 5) "bob") bob_store) /\
  forall p,
    fst (res_to_json (mkResult (JInt 5) "bob")
           (fst (res_to_json (mkResult (JInt 4) "bob") bob_store))) p
    = fst (res_to_json (mkResult (JInt 5) "bob") bob_store) p.
Proof.
  apply (res_to_json_last_wins (mkResult (JInt 4) "bob") (mkResult (JInt 5) "bob"));
    reflexivity.
Defined.

(** X12: results saved under two different names do not disturb each other:
    when each of the two calls completes on the store, both complete one
    after the other in either order, and every key has the same value in
    the two final objects. *)
Theorem res_to_json_two_names (r1 r2 : Result) (fs : files) :
  name r1 <> name r2 ->
  snd (res_to_json r1 fs) = inr tt ->
  snd (res_to_json r2 fs) = inr tt ->
  exists d12 d21,
    res_to_json r2 (fst (res_to_json r1 fs)) =
      (fst (res_to_json r2 (fst (res_to_json r1 fs))), inr tt) /\
    res_to_json r1 (fst (res_to_json r2 fs)) =
      (fst (res_to_json r1 (fst (res_to_json r2 fs))), inr tt) /\
    fst (res_to_json r2 (fst (res_to_json r1 fs))) "result.json"%string
      = Some (Json (JObject d12)) /\
    fst (res_to_json r1 (fst (res_to_json r2 fs))) "result.json"%string
      = Some (Json (JObject d21)) /\
    dict_get (name r1) d12 = Some (result r1) /\
    dict_get (name r2) d12 = Some (result r2) /\
    forall k, dict_get k d12 = dict_get k d21.
Proof.
  intros Hne H1 H2.
  destruct (res_to_json_completes r1 fs H1) as (d & Hobj & Hc1 & E1).
  destruct (res_to_json_completes r2 fs H2) as (d' & Hobj' & Hc2 & E2).
  rewrite Hobj in Hobj'. injection Hobj' as <-.
  destruct (dict_set_surrogate_new _ _ _ Hc1) as [Hk1 Hv1].
  destruct (dict_set_surrogate_new _ _ _ Hc2) as [Hk2 Hv2].
  assert (Hstep : forall r g e,
            g "result.json"%string = Some (Json (JObject e)) ->
            json_has_surrogate (JObject (dict_set (name r) (result r) e)) = false ->
            res_to_json r g = (fst (res_to_json r g), inr tt) /\
            fst (res_to_json r g) "result.json"%string
              = Some (Json (JObject (dict_set (name r) (result r) e)))).
  { intros r g e Hg Hclean. rewrite res_to_json_cases, Hg.
    destruct (dump_result_cases (dict_set (name r) (result r) e) (grades_ensured g))
      as [Hok _].
    rewrite (Hok Hclean). cbn [fst].
    split; [ reflexivity | apply write_file_same ]. }
  destruct (Hstep r1 fs d Hobj Hc1) as [_ F1].
  destruct (Hstep r2 fs d Hobj Hc2) as [_ F2].
  destruct (Hstep r2 _ _ F1 (dict_set_surrogate_keep _ _ _ Hc1 Hk2 Hv2)) as [H12 E12].
  destruct (Hstep r1 _ _ F2 (dict_set_surrogate_keep _ _ _ Hc2 Hk1 Hv1)) as [H21 E21].
  exists (dict_set (name r2) (result r2) (dict_set (name r1) (result r1) d)),
         (dict_set (name r1) (result r1) (dict_set (name r2) (result r2) d)).
  split; [ exact H12 | ]. split; [ exact H21 | ].
  split; [ exact E12 | ]. split; [ exact E21 | ].
  split; [ rewrite dict_get_set_other by exact Hne; apply dict_get_set_same | ].
  split; [ apply dict_get_set_same | ].
  intros k.
  destruct (string_dec k (name r1)) as [-> | K1].
  - rewrite dict_get_set_other by exact Hne.
    rewrite !dict_get_set_same. reflexivity.
  - destruct (string_dec k (name r2)) as [-> | K2].
    + rewrite dict_get_set_same.
      rewrite dict_get_set_other by congruence.
      rewrite dict_get_set_same. reflexivity.
    + rewrite !dict_get_set_other by assumption. reflexivity.
Qed.

Lemma res_to_json_two_names_witness :
  exists d12 d21,
    res_to_json (mkResult (JInt 5) "ann")
      (fst (res_to_json (mkResult (JInt 4) "bob") bob_store)) =
      (fst (res_to_json (mkResult (JInt 5) "ann")
              (fst (res_to_json (mkResult (JInt 4) "bob") bob_store))), inr tt) /\
    res_to_json (mkResult (JInt 4) "bob")
      (fst (res_to_json (mkResult (JInt 5) "ann") bob_store)) =
      (fst (res_to_json (mkResult (JInt 4) "bob")
              (fst (res_to_json (mkResult (JInt 5) "ann") bob_store))), inr tt) /\
    fst (res_to_json (mkResult (JInt 5) "ann")
           (fst (res_to_json (mkResult (JInt 4) "bob") bob_store)))
      "result.json"%string = Some (Json (JObject d12)) /\
    fst (res_to_json (mkResult (JInt 4) "bob")
           (fst (res_to_json (mkResult (JInt 5) "ann") bob_store)))
      "result.json"%string = Some (Json (JObject d21)) /\
    dict_get "bob" d12 = Some (JInt 4) /\
    dict_get "ann" d12 = Some (JInt 5) /\
    forall k, dict_get k d12 = dict_get k d21.
Proof.
  apply (res_to_json_two_names (mkResult (JInt 4) "bob") (mkResult (JInt 5) "ann")
           bob_store).
  - discriminate.
  - reflexivity.
  - reflexivity.
Defined.

(** X13: a result never reaches [grades.json]: the file is left as it is
    when it exists and created as the empty object when it does not, and
    no file other than [grades.json] and [result.json] is touched. *)
Theorem res_to_json_other_files (r : Result) (fs : files) :
  fst (res_to_json r fs) "grades.json"%string =
    match fs "grades.json"%string with
    | Some c => Some c
    | None => Some (Json (JObject []))
    end /\
  forall p,
    p <> "grades.json"%string -> p <> "result.json"%string ->
    fst (res_to_json r fs) p = fs p.
Proof.
  rewrite res_to_json_cases.
  destruct (grades_step fs) as (_ & E2 & E3).
  assert (Hdump : forall d,
            fst (dump_result d (grades_ensured fs)) "grades.json"%string
              = grades_ensured fs "grades.json"%string /\
            forall p, p <> "result.json"%string ->
              fst (dump_result d (grades_ensured fs)) p = grades_ensured fs p).
  { intros d. unfold dump_result.
    destruct (json_has_surrogate (JObject d)); cbn [fst];
      (split; [ apply write_file_other; discriminate | ]);
      intros p Hp; apply write_file_other; exact Hp. }
  destruct (fs "result.json"%string) as [[j | | ] | ]; [ destruct j | | | ];
    cbn [fst];
    try (split; [ exact E2 | intros p Hg Hr; exact (E3 p Hg) ]).
  destruct (Hdump (dict_set (name r) (result r) members)) as [D1 D2].
  split; [ rewrite D1; exact E2 | ].
  intros p Hg Hr. rewrite (D2 p Hr). exact (E3 p Hg).
Qed.



(** ** The program *)

Lemma grade_cases (res : R) :
  (grade res = 5%Z <-> res >= grade_5_from) /\
  (grade res = 4%Z <-> grade_4_above < res < grade_5_from) /\
  (grade res = 3%Z <-> res <= grade_4_above).
Proof.
  assert (Hlt : grade_4_above < grade_5_from)
    by (unfold grade_4_above, grade_5_from; lra).
  unfold grade.
  destruct (Rge_dec res grade_5_from) as [H5 | H5].
  - split; [ tauto | ]. split; split; try discriminate; lra.
  - destruct (Rgt_dec res grade_4_above) as [H4 | H4].
    + split; [ split; [ discriminate | lra ] | ].
      split; [ split; [ lra | reflexivity ] | split; [ discriminate | lra ] ].
    + split; [ split; [ discriminate | lra ] | ].
      split; [ split; [ discriminate | lra ] | split; [ lra | reflexivity ] ].
Qed.

(** X14: for a call of [move] on the reference chair that returns, a front
    step of at most 29.5 is graded 3 and a front step of at most 29.8 is not
    graded 5; the grade is 3, 4 or 5 in every case. *)
Theorem grade_by_front_step (w1 w2 : R) (fuel : nat) (f' : Frame) (d : R) :
  move fuel reference w1 w2 = Some (f', inr d) ->
  (w1 <= 29.5 -> grade d = 3%Z) /\
  (w1 <= 29.8 -> grade d <> 5%Z) /\
  (grade d = 3%Z \/ grade d = 4%Z \/ grade d = 5%Z).
Proof.
  intros H.
  destruct (reference_iterations _ _ _ _ _ H) as (_ & _ & Hd).
  destruct (grade_cases d) as (G5 & G4 & G3).
  split; [ | split ].
  - intros Hw. apply G3. unfold grade_4_above. lra.
  - intros Hw H5. apply G5 in H5. unfold grade_5_from in H5. lra.
  - unfold grade.
    destruct (Rge_dec d grade_5_from); [ tauto | ].
    destruct (Rgt_dec d grade_4_above); tauto.
Qed.

Lemma grade_by_front_step_witness :
  (1 / 2 <= 29.5 -> grade (125 / 2) = 3%Z) /\
  (1 / 2 <= 29.8 -> grade (125 / 2) <> 5%Z) /\
  (grade (125 / 2) = 3%Z \/ grade (125 / 2) = 4%Z \/ grade (125 / 2) = 5%Z).
Proof.
  destruct reference_half_run as (fn & H).
  exact (grade_by_front_step (1 / 2) (1 / 2) 126 fn (125 / 2) H).
Defined.

(** [main] on inputs of the right types. *)
Lemma main_valid (str : py_exception -> string) (fuel : nat) (name : string)
    (front back : pyobj) (w1 w2 : R) (fs : files) :
  number_of front = Some w1 -> number_of back = Some w2 ->
  main str fuel (PyStr name) front back fs =
  match move fuel reference w1 w2 with
  | None => None
  | Some (_, inr res) =>
      match res_to_json (mkResult (JInt (grade res)) name) fs with
      | (fs', inr _) => Some (fs', [], None)
      | (fs', inl e) => Some (on_exception str (StoreError e) name fs')
      end
  | Some (_, inl e) => Some (on_exception str (MoveError e) name fs)
  end.
Proof.
  intros H1 H2. unfold main. rewrite H1, H2. reflexivity.
Qed.

(** On the reference chair 126 units of fuel are enough. *)
Lemma reference_move_ends (w1 w2 : R) (fuel : nat) :
  (126 <= fuel)%nat -> exists o, move fuel reference w1 w2 = Some o.
Proof.
  intros Hfuel.
  destruct (move_loop_terminates w1 w2 125 (mkFrame reference 0 0))
    as (f' & r & Hm & _).
  - simpl. lra.
  - rewrite INR_125. simpl. lra.
  - exists (f', r). unfold move. apply (move_loop_fuel 126); assumption.
Qed.


(** Without an object in [result.json] a save fails, changes nothing but
    [grades.json], and saving again fails the same way. *)
Lemma res_to_json_fails_again (r r' : Result) (fs : files) :
  (forall d, fs "result.json"%string <> Some (Json (JObject d))) ->
  exists e,
    snd (res_to_json r fs) = inl e /\
    snd (res_to_json r' (fst (res_to_json r fs))) = inl e /\
    (forall p, fst (res_to_json r' (fst (res_to_json r fs))) p
               = fst (res_to_json r fs) p) /\
    fst (res_to_json r fs) "result.json"%string = fs "result.json"%string /\
    fst (res_to_json r fs) "grades.json"%string <> None /\
    (fs "result.json"%string = None -> e = FileNotFoundError).
Proof.
  intros Hno.
  assert (Hg : grades_ensured (grades_ensured fs) = grades_ensured fs).
  { destruct (grades_step fs) as (_ & E2 & _).
    unfold grades_ensured at 1. rewrite E2.
    destruct (fs "grades.json"%string); reflexivity. }
  destruct (grades_step fs) as (E1 & E2 & _).
  assert (Hgr : grades_ensured fs "grades.json"%string <> None).
  { rewrite E2. destruct (fs "grades.json"%string); discriminate. }
  rewrite (res_to_json_cases r fs).
  destruct (fs "result.json"%string) as [[j | | ] | ] eqn:E;
    [ destruct j; try (exfalso; exact (Hno _ eq_refl)) | | | ];
    cbn [fst snd]; rewrite res_to_json_cases, E1, ?E, Hg; cbn [fst snd];
    eexists; (split; [ reflexivity | ]); (split; [ reflexivity | ]);
    (split; [ reflexivity | ]); (split; [ first [ exact E1 | reflexivity ] | ]);
    (split; [ exact Hgr | ]); intros Hnone; first [ discriminate | reflexivity ].
Qed.

(** X15: when the student is not a string, or one of the two distances is
    neither an [int] nor a [float], the program only prints its complaint:
    [move] is not run (no fuel is needed), nothing is raised and the disk
    is left as it was. *)
Theorem main_invalid_input (str : py_exception -> string) (fuel : nat)
    (student front back : pyobj) (fs : files) :
  (forall name, student <> PyStr name) \/
  number_of front = None \/ number_of back = None ->
  main str fuel student front back fs = Some (fs, [invalid_input], None).
Proof.
  intros H. unfold main.
  destruct student as [name | n | x | ]; try reflexivity.
  destruct H as [H | [H | H]].
  - exfalso. exact (H name eq_refl).
  - rewrite H. reflexivity.
  - rewrite H. destruct (number_of front); reflexivity.
Qed.

Lemma main_invalid_input_witness :
  main plain_str 0 (PyStr "ann") (PyFloat (1 / 2)) PyOther bob_store =
    Some (bob_store, [invalid_input], None).
Proof.
  apply (main_invalid_input plain_str 0 (PyStr "ann") (PyFloat (1 / 2)) PyOther).
  right. right. reflexivity.
Defined.




(** X17: with inputs of the right types and a [result.json] that holds no
    JSON object, the program ends with the exception of the store, raised a
    second time by the [except] branch: [FileNotFoundError] when the file is
    missing.  Nothing is saved: [result.json] is as before; [grades.json]
    exists afterwards. *)
Theorem main_store_failure (str : py_exception -> string) (fuel : nat)
    (name : string) (front back : pyobj) (w1 w2 : R) (fs fs' : files)
    (out : list string) (ex : option io_exn) :
  number_of front = Some w1 -> number_of back = Some w2 ->
  (forall d, fs "result.json"%string <> Some (Json (JObject d))) ->
  main str fuel (PyStr name) front back fs = Some (fs', out, ex) ->
  out = [] /\
  (exists e, ex = Some e /\ (fs "result.json"%string = None -> e = FileNotFoundError)) /\
  fs' "result.json"%string = fs "result.json"%string /\
  fs' "grades.json"%string <> None.
Proof.
  intros H1 H2 Hno Hmain.
  rewrite (main_valid str fuel name front back w1 w2 fs H1 H2) in Hmain.
  destruct (move fuel reference w1 w2) as [[f [e | dist]] | ]; [ | | discriminate ].
  - unfold on_exception in Hmain.
    destruct (res_to_json_fails_again (mkResult (JStr (str (MoveError e))) name)
                (mkResult JNull name) fs Hno)
      as (e0 & He0 & _ & _ & Hr & Hg & Hn).
    destruct (res_to_json (mkResult (JStr (str (MoveError e))) name) fs)
      as [g [e' | u]]; simpl in He0, Hr, Hg; [ | discriminate ].
    injection He0 as ->. injection Hmain as <- <- <-.
    split; [ reflexivity | ].
    split; [ exists e0; split; [ reflexivity | exact Hn ] | ].
    split; assumption.
  - assert (Hagain : forall r',
              exists e0,
                snd (res_to_json (mkResult (JInt (grade dist)) name) fs) = inl e0 /\
                snd (res_to_json r'
                       (fst (res_to_json (mkResult (JInt (grade dist)) name) fs)))
                  = inl e0 /\
                (forall p,
                   fst (res_to_json r'
                          (fst (res_to_json (mkResult (JInt (grade dist)) name) fs))) p
                   = fst (res_to_json (mkResult (JInt (grade dist)) name) fs) p) /\
                fst (res_to_json (mkResult (JInt (grade dist)) name) fs)
                  "result.json"%string = fs "result.json"%string /\
                fst (res_to_json (mkResult (JInt (grade dist)) name) fs)
                  "grades.json"%string <> None /\
                (fs "result.json"%string = None -> e0 = FileNotFoundError)).
    { intros r'. apply res_to_json_fails_again. exact Hno. }
    destruct (res_to_json (mkResult (JInt (grade dist)) name) fs)
      as [g [e' | u]] eqn:Er; cbn [fst snd] in Hagain.
    + unfold on_exception in Hmain.
      destruct (Hagain (mkResult (JStr (str (StoreError e'))) name))
        as (e0 & He0 & Ha & Hp & Hr & Hg & Hn).
      injection He0 as <-.
      destruct (res_to_json (mkResult (JStr (str (StoreError e'))) name) g)
        as [g' [e'' | u]]; simpl in Ha, Hp; [ | discriminate ].
      injection Ha as ->. injection Hmain as <- <- <-.
      split; [ reflexivity | ].
      split; [ exists e'; split; [ reflexivity | exact Hn ] | ].
      rewrite !Hp. split; assumption.
    + destruct (Hagain (mkResult JNull name)) as (e0 & He0 & _). discriminate.
Qed.

Lemma main_no_files :
  exists fs' ex,
    main plain_str 126 (PyStr "ann") (PyFloat (1 / 2)) (PyFloat (1 / 2)) no_files
      = Some (fs', [], ex).
Proof.
  destruct reference_half_run as (fn & H).
  rewrite (main_valid plain_str 126 "ann" (PyFloat (1 / 2)) (PyFloat (1 / 2))
             (1 / 2) (1 / 2) no_files eq_refl eq_refl).
  rewrite H.
  destruct (res_to_json (mkResult (JInt (grade (125 / 2))) "ann") no_files)
    as [g [e' | u]].
  - unfold on_exception.
    destruct (res_to_json (mkResult (JStr (plain_str (StoreError e'))) "ann") g)
      as [g' [e'' | u]]; eexists; eexists; reflexivity.
  - eexists; eexists; reflexivity.
Qed.

Lemma main_store_failure_witness :
  exists fs' ex,
    (exists e, ex = Some e /\
               (no_files "result.json"%string = None -> e = FileNotFoundError)) /\
    fs' "result.json"%string = no_files "result.json"%string /\
    fs' "grades.json"%string <> None.
Proof.
  destruct main_no_files as (fs' & ex & H).
  assert (Hno : forall d, no_files "result.json"%string <> Some (Json (JObject d)))
    by (intros d; discriminate).
  destruct (main_store_failure plain_str 126 "ann" (PyFloat (1 / 2)) (PyFloat (1 / 2))
              (1 / 2) (1 / 2) no_files fs' [] ex eq_refl eq_refl Hno H)
    as (_ & He & Hr).
  exists fs', ex. split; [ exact He | exact Hr ].
Defined.

(** X18: the program always ends: with 126 units of fuel or more it has a
    result, whatever the inputs and the store. *)
Theorem main_ends (str : py_exception -> string) (fuel : nat)
    (student front back : pyobj) (fs : files) :
  (126 <= fuel)%nat ->
  exists o, main str fuel student front back fs = Some o.
Proof.
  intros Hfuel. unfold main.
  destruct student as [name | n | x | ]; try (eexists; reflexivity).
  destruct (number_of front) as [w1 | ]; [ | eexists; reflexivity ].
  destruct (number_of back) as [w2 | ]; [ | eexists; reflexivity ].
  destruct (reference_move_ends w1 w2 fuel Hfuel) as ([f r] & Hm).
  rewrite Hm. destruct r as [e | dist].
  - eexists; reflexivity.
  - destruct (res_to_json (mkResult (JInt (grade dist)) name) fs) as [g [e | u]];
      eexists; reflexivity.
Qed.

Lemma main_ends_witness :
  exists o,
    main plain_str 126 (PyStr "ann") (PyInt 31) (PyFloat (1 / 2)) bob_store = Some o.
Proof.
  apply (main_ends plain_str 126 (PyStr "ann") (PyInt 31) (PyFloat (1 / 2)) bob_store).
  lia.
Defined.
